(** * Museum Art Scanner: schema, result UI and scan pipeline

    A shallow embedding of

    - the PostgreSQL schema ([CREATE TABLE museums / artworks / user_scans])
      and the migration [migration_add_verification.sql];
    - the React Native result UI ([ResultCard.tsx], [ScanScreen.tsx],
      [app/scan/index.tsx]);
    - the recognition and auto-cataloging pipeline of the backend, whose
      code is not part of the sources and is modelled from the
      specification.                                                      *)

From Stdlib Require Import ZArith QArith Qabs Lia.
From stdpp Require Import base list strings gmap pretty.

Open Scope Z_scope.

(* ===================================================================== *)
(** * SQL values *)
(* ===================================================================== *)

Module Sql.

(** SQL's three-valued logic: a comparison with NULL is unknown. *)
Inductive tri := TTrue | TFalse | TUnknown.

Definition tri_of_bool (b : bool) : tri := if b then TTrue else TFalse.

Definition tri_and (a b : tri) : tri :=
  match a, b with
  | TFalse, _ | _, TFalse => TFalse
  | TTrue, TTrue => TTrue
  | _, _ => TUnknown
  end.

Definition tri_or (a b : tri) : tri :=
  match a, b with
  | TTrue, _ | _, TTrue => TTrue
  | TFalse, TFalse => TFalse
  | _, _ => TUnknown
  end.

(** A CHECK constraint is violated only when its expression is FALSE. *)
Definition check_ok (t : tri) : bool :=
  match t with TFalse => false | _ => true end.

(** A WHERE clause selects a row only when its expression is TRUE. *)
Definition where_ok (t : tri) : bool :=
  match t with TTrue => true | _ => false end.

Definition is_null {A} (v : option A) : tri :=
  tri_of_bool (bool_decide (v = None)).

Definition COALESCE {A} (v : option A) (d : A) : option A :=
  match v with Some x => Some x | None => Some d end.

(** FLOAT (float8).  A finite double is a rational; PostgreSQL orders
    -Infinity < finite < +Infinity < NaN, and NaN equals NaN. *)
Inductive float8 := NegInf | Fin (q : Q) | PosInf | NaN.

#[global] Instance Q_eq_dec : EqDecision Q.
Proof. solve_decision. Defined.

#[global] Instance float8_eq_dec : EqDecision float8.
Proof. solve_decision. Defined.

Definition float8_le (a b : float8) : bool :=
  match a, b with
  | NegInf, _ => true
  | _, NaN => true
  | Fin x, Fin y => Qle_bool x y
  | Fin _, PosInf => true
  | PosInf, PosInf => true
  | _, _ => false
  end.

(** [a >= b] and [a <= b] on a nullable FLOAT column against a literal. *)
Definition sql_ge (a : option float8) (b : float8) : tri :=
  match a with None => TUnknown | Some x => tri_of_bool (float8_le b x) end.

Definition sql_le (a : option float8) (b : float8) : tri :=
  match a with None => TUnknown | Some x => tri_of_bool (float8_le x b) end.

(** [x IN (v1, ..., vn)] for a nullable VARCHAR and non-null literals. *)
Definition sql_in (x : option string) (vs : list string) : tri :=
  match x with
  | None => TUnknown
  | Some s => tri_of_bool (bool_decide (s ∈ vs))
  end.

Inductive sql_error :=
  | unique_violation (constraint : string)
  | check_violation (constraint : string)
  | foreign_key_violation (constraint : string)
  | data_exception (what : string).

(** Outcome of a statement: the new database, or the error raised (the
    statement then leaves the database as it was). *)
Inductive result (A : Type) :=
  | Ok (a : A)
  | Err (e : sql_error).
Arguments Ok {A} a.
Arguments Err {A} e.

#[global] Instance result_ret : MRet result := λ A a, Ok a.
#[global] Instance result_bind : MBind result := λ A B k r,
  match r with Ok a => k a | Err e => Err e end.

(** Raise [e] unless [b] holds. *)
Definition require (b : bool) (e : sql_error) : result unit :=
  if b then Ok tt else Err e.

End Sql.
Export Sql.

(* ===================================================================== *)
(** * The schema *)
(* ===================================================================== *)

(** An image embedding: [vector(512)], components taken as rationals. *)
Definition embedding := list Q.
Definition embedding_dim : nat := 512.

(** [POINT]: (longitude, latitude). *)
Definition point := (Q * Q)%type.

(** [CREATE TABLE museums]. *)
Record museum := {
  mus_id : Z;                          (* SERIAL PRIMARY KEY *)
  mus_name : string;                   (* VARCHAR(255) NOT NULL *)
  location : point;                    (* POINT NOT NULL *)
  geofence_radius_meters : Z;          (* INTEGER NOT NULL DEFAULT 100 *)
  mus_created_at : option Z;           (* TIMESTAMPTZ DEFAULT NOW() *)
  mus_updated_at : option Z;
}.

(** [CREATE TABLE artworks], before the migration. *)
Record artwork0 := {
  art0_id : Z;
  art0_museum_id : option Z;
  art0_title : string;
  art0_artist : option string;
  art0_description_json : option string;
  art0_image_url : option string;
  art0_embedding : option embedding;
  art0_created_at : option Z;
  art0_updated_at : option Z;
}.

(** [artworks] after [migration_add_verification.sql]. *)
Record artwork := {
  art_id : Z;                          (* SERIAL PRIMARY KEY *)
  museum_id : option Z;                (* REFERENCES museums(id) ON DELETE CASCADE *)
  title : string;                      (* VARCHAR(255) NOT NULL *)
  artist : option string;              (* VARCHAR(255) *)
  description_json : option string;    (* JSONB, kept as its text *)
  image_url : option string;           (* TEXT *)
  art_embedding : option embedding;    (* vector(512) *)
  art_created_at : option Z;
  art_updated_at : option Z;
  is_verified : option bool;           (* BOOLEAN DEFAULT false *)
  source : option string;              (* VARCHAR(50) DEFAULT 'ai_generated' *)
  confidence_score : option float8;    (* FLOAT *)
}.

#[global] Instance artwork_eq_dec : EqDecision artwork.
Proof. solve_decision. Defined.

(** [CREATE TABLE user_scans]. *)
Record user_scan := {
  scan_id : Z;                         (* SERIAL PRIMARY KEY *)
  user_id : string;                    (* VARCHAR(255) NOT NULL *)
  artwork_id : option Z;               (* REFERENCES artworks(id) ON DELETE SET NULL *)
  scan_image_url : option string;      (* TEXT *)
  timestamp : option Z;                (* TIMESTAMPTZ DEFAULT NOW() *)
}.

(** The database: the three tables and the three SERIAL sequences.  The
    length limits of the VARCHAR columns are not modelled. *)
Record db := {
  museums : list museum;
  artworks : list artwork;
  user_scans : list user_scan;
  museums_id_seq : Z;
  artworks_id_seq : Z;
  user_scans_id_seq : Z;
}.

(** ** Constraints of the migration *)

Definition source_values : list string :=
  ["museum_api"; "ai_generated"; "admin"; "community"].

(** [CHECK (source IN ('museum_api', 'ai_generated', 'admin', 'community'))] *)
Definition check_source_values (r : artwork) : tri :=
  sql_in (source r) source_values.

(** [CHECK (confidence_score IS NULL OR
           (confidence_score >= 0 AND confidence_score <= 1))] *)
Definition check_confidence_range (r : artwork) : tri :=
  tri_or (is_null (confidence_score r))
         (tri_and (sql_ge (confidence_score r) (Fin 0))
                  (sql_le (confidence_score r) (Fin 1))).

(** The type [vector(512)] rejects a vector of another dimension. *)
Definition embedding_dim_ok (r : artwork) : bool :=
  match art_embedding r with
  | None => true
  | Some v => bool_decide (length v = embedding_dim)
  end.

(** The foreign key [artworks.museum_id -> museums.id]. *)
Definition museum_exists (d : db) (m : option Z) : bool :=
  match m with
  | None => true
  | Some i => bool_decide (i ∈ mus_id <$> museums d)
  end.

(** The foreign key [user_scans.artwork_id -> artworks.id]. *)
Definition artwork_exists (d : db) (a : option Z) : bool :=
  match a with
  | None => true
  | Some i => bool_decide (i ∈ art_id <$> artworks d)
  end.

(** What every INSERT or UPDATE of an [artworks] row is checked against. *)
Definition artwork_row_checks (d : db) (r : artwork) : result unit :=
  require (embedding_dim_ok r) (data_exception "vector dimension");;
  require (check_ok (check_source_values r))
          (check_violation "check_source_values");;
  require (check_ok (check_confidence_range r))
          (check_violation "check_confidence_range");;
  require (museum_exists d (museum_id r))
          (foreign_key_violation "artworks_museum_id_fkey").

(* ===================================================================== *)
(** * Statements *)
(* ===================================================================== *)

(** A column of an INSERT that has a DEFAULT: left out of the column list,
    or given a value, which may be NULL. *)
Inductive col (A : Type) :=
  | DEFAULT
  | Given (v : option A).
Arguments DEFAULT {A}.
Arguments Given {A} v.

Definition col_value {A} (c : col A) (default : option A) : option A :=
  match c with DEFAULT => default | Given v => v end.

(** [INSERT INTO artworks (...) VALUES (...)]; [id], [created_at] and
    [updated_at] take their defaults. *)
Record artworks_insert := {
  ins_museum_id : option Z;
  ins_title : string;
  ins_artist : option string;
  ins_description_json : option string;
  ins_image_url : option string;
  ins_embedding : option embedding;
  ins_is_verified : col bool;
  ins_source : col string;
  ins_confidence_score : option float8;
}.

Definition new_artwork_row (now : Z) (i : artworks_insert) (d : db) : artwork :=
  {| art_id := artworks_id_seq d;
     museum_id := ins_museum_id i;
     title := ins_title i;
     artist := ins_artist i;
     description_json := ins_description_json i;
     image_url := ins_image_url i;
     art_embedding := ins_embedding i;
     art_created_at := Some now;
     art_updated_at := Some now;
     is_verified := col_value (ins_is_verified i) (Some false);
     source := col_value (ins_source i) (Some "ai_generated"%string);
     confidence_score := ins_confidence_score i |}.

Definition with_artworks (d : db) (rows : list artwork) (seq : Z) : db :=
  {| museums := museums d; artworks := rows; user_scans := user_scans d;
     museums_id_seq := museums_id_seq d; artworks_id_seq := seq;
     user_scans_id_seq := user_scans_id_seq d |}.

Definition insert_artwork (now : Z) (i : artworks_insert) (d : db) : result db :=
  let r := new_artwork_row now i d in
  require (bool_decide (art_id r ∉ art_id <$> artworks d))
          (unique_violation "artworks_pkey");;
  artwork_row_checks d r;;
  mret (with_artworks d (artworks d ++ [r]) (artworks_id_seq d + 1)).

(** [UPDATE artworks SET ... WHERE id = i]: for each column, [None] leaves
    it as it is and [Some v] assigns [v]. *)
Record artworks_set := {
  set_museum_id : option (option Z);
  set_title : option string;
  set_artist : option (option string);
  set_description_json : option (option string);
  set_image_url : option (option string);
  set_embedding : option (option embedding);
  set_updated_at : option (option Z);
  set_is_verified : option (option bool);
  set_source : option (option string);
  set_confidence_score : option (option float8);
}.

Definition apply_set (s : artworks_set) (r : artwork) : artwork :=
  {| art_id := art_id r;
     museum_id := default (museum_id r) (set_museum_id s);
     title := default (title r) (set_title s);
     artist := default (artist r) (set_artist s);
     description_json := default (description_json r) (set_description_json s);
     image_url := default (image_url r) (set_image_url s);
     art_embedding := default (art_embedding r) (set_embedding s);
     art_created_at := art_created_at r;
     art_updated_at := default (art_updated_at r) (set_updated_at s);
     is_verified := default (is_verified r) (set_is_verified s);
     source := default (source r) (set_source s);
     confidence_score := default (confidence_score r) (set_confidence_score s) |}.

Definition check_all (d : db) (rows : list artwork) : result unit :=
  foldr (λ r acc, artwork_row_checks d r;; acc) (Ok tt) rows.

Definition update_row (i : Z) (s : artworks_set) (r : artwork) : artwork :=
  if bool_decide (art_id r = i) then apply_set s r else r.

Definition update_artwork (i : Z) (s : artworks_set) (d : db) : result db :=
  check_all d (apply_set s <$> filter (λ r, art_id r = i) (artworks d));;
  mret (with_artworks d (update_row i s <$> artworks d) (artworks_id_seq d)).

(** ON DELETE SET NULL: the scans that referenced a deleted artwork stay,
    with a NULL reference. *)
Definition set_null (ids : list Z) (s : user_scan) : user_scan :=
  match artwork_id s with
  | Some a =>
      if bool_decide (a ∈ ids) then
        {| scan_id := scan_id s; user_id := user_id s; artwork_id := None;
           scan_image_url := scan_image_url s; timestamp := timestamp s |}
      else s
  | None => s
  end.

(** [DELETE FROM artworks WHERE id = i]. *)
Definition delete_artwork (i : Z) (d : db) : db :=
  {| museums := museums d;
     artworks := filter (λ r, art_id r ≠ i) (artworks d);
     user_scans := set_null [i] <$> user_scans d;
     museums_id_seq := museums_id_seq d;
     artworks_id_seq := artworks_id_seq d;
     user_scans_id_seq := user_scans_id_seq d |}.

(** [DELETE FROM museums WHERE id = m].  ON DELETE CASCADE deletes the
    artworks of the museum, and their deletion in turn sets the scans that
    referenced them to NULL. *)
Definition delete_museum (m : Z) (d : db) : db :=
  let gone := filter (λ r, museum_id r = Some m) (artworks d) in
  {| museums := filter (λ x, mus_id x ≠ m) (museums d);
     artworks := filter (λ r, museum_id r ≠ Some m) (artworks d);
     user_scans := set_null (art_id <$> gone) <$> user_scans d;
     museums_id_seq := museums_id_seq d;
     artworks_id_seq := artworks_id_seq d;
     user_scans_id_seq := user_scans_id_seq d |}.

(** [INSERT INTO museums (name, location, geofence_radius_meters)]; the
    radius is a column with DEFAULT 100 and NOT NULL. *)
Definition insert_museum (now : Z) (name : string) (loc : point)
    (radius : option Z) (d : db) : result db :=
  let r := {| mus_id := museums_id_seq d; mus_name := name; location := loc;
              geofence_radius_meters := default 100 radius;
              mus_created_at := Some now; mus_updated_at := Some now |} in
  require (bool_decide (mus_id r ∉ mus_id <$> museums d))
          (unique_violation "museums_pkey");;
  mret {| museums := museums d ++ [r]; artworks := artworks d;
          user_scans := user_scans d;
          museums_id_seq := museums_id_seq d + 1;
          artworks_id_seq := artworks_id_seq d;
          user_scans_id_seq := user_scans_id_seq d |}.

(** [INSERT INTO user_scans (user_id, artwork_id, image_url)]. *)
Definition insert_user_scan (now : Z) (user : string) (art : option Z)
    (img : option string) (d : db) : result db :=
  let r := {| scan_id := user_scans_id_seq d; user_id := user;
              artwork_id := art; scan_image_url := img;
              timestamp := Some now |} in
  require (bool_decide (scan_id r ∉ scan_id <$> user_scans d))
          (unique_violation "user_scans_pkey");;
  require (artwork_exists d art)
          (foreign_key_violation "user_scans_artwork_id_fkey");;
  mret {| museums := museums d; artworks := artworks d;
          user_scans := user_scans d ++ [r];
          museums_id_seq := museums_id_seq d;
          artworks_id_seq := artworks_id_seq d;
          user_scans_id_seq := user_scans_id_seq d + 1 |}.

(** The statements that write the database. *)
Inductive statement :=
  | InsertArtwork (now : Z) (i : artworks_insert)
  | UpdateArtwork (id : Z) (s : artworks_set)
  | DeleteArtwork (id : Z)
  | InsertMuseum (now : Z) (name : string) (loc : point) (radius : option Z)
  | DeleteMuseum (id : Z)
  | InsertUserScan (now : Z) (user : string) (art : option Z) (img : option string).

Definition exec (st : statement) (d : db) : result db :=
  match st with
  | InsertArtwork now i => insert_artwork now i d
  | UpdateArtwork id s => update_artwork id s d
  | DeleteArtwork id => Ok (delete_artwork id d)
  | InsertMuseum now name loc radius => insert_museum now name loc radius d
  | DeleteMuseum id => Ok (delete_museum id d)
  | InsertUserScan now user art img => insert_user_scan now user art img d
  end.

(** A statement that raises an error leaves the database as it was. *)
Definition exec_or_keep (st : statement) (d : db) : db :=
  match exec st d with Ok d' => d' | Err _ => d end.

Definition run (sts : list statement) (d : db) : db :=
  foldl (λ d st, exec_or_keep st d) d sts.

(* ===================================================================== *)
(** * The migration *)
(* ===================================================================== *)

(** The database under the base schema. *)
Record db0 := {
  museums0 : list museum;
  artworks0 : list artwork0;
  user_scans0 : list user_scan;
  museums0_id_seq : Z;
  artworks0_id_seq : Z;
  user_scans0_id_seq : Z;
}.

(** [ALTER TABLE artworks ADD COLUMN IF NOT EXISTS ...]: every existing row
    takes the DEFAULT of each new column. *)
Definition add_columns (r : artwork0) : artwork :=
  {| art_id := art0_id r;
     museum_id := art0_museum_id r;
     title := art0_title r;
     artist := art0_artist r;
     description_json := art0_description_json r;
     image_url := art0_image_url r;
     art_embedding := art0_embedding r;
     art_created_at := art0_created_at r;
     art_updated_at := art0_updated_at r;
     is_verified := Some false;
     source := Some "ai_generated"%string;
     confidence_score := None |}.

(** [UPDATE artworks SET is_verified = COALESCE(is_verified, false),
                         source = COALESCE(source, 'admin')
     WHERE is_verified IS NULL OR source IS NULL] *)
Definition update_existing (r : artwork) : artwork :=
  if where_ok (tri_or (is_null (is_verified r)) (is_null (source r))) then
    {| art_id := art_id r;
       museum_id := museum_id r;
       title := title r;
       artist := artist r;
       description_json := description_json r;
       image_url := image_url r;
       art_embedding := art_embedding r;
       art_created_at := art_created_at r;
       art_updated_at := art_updated_at r;
       is_verified := COALESCE (is_verified r) false;
       source := COALESCE (source r) "admin"%string;
       confidence_score := confidence_score r |}
  else r.

(** [ALTER TABLE artworks ADD CONSTRAINT name CHECK (...)]: the existing
    rows are validated, and a violating row aborts the statement. *)
Definition add_constraint (name : string) (chk : artwork → tri)
    (rows : list artwork) : result unit :=
  require (forallb (λ r, check_ok (chk r)) rows) (check_violation name).

Definition migration_add_verification (d : db0) : result db :=
  let rows := update_existing <$> (add_columns <$> artworks0 d) in
  add_constraint "check_source_values" check_source_values rows;;
  add_constraint "check_confidence_range" check_confidence_range rows;;
  mret {| museums := museums0 d; artworks := rows;
          user_scans := user_scans0 d;
          museums_id_seq := museums0_id_seq d;
          artworks_id_seq := artworks0_id_seq d;
          user_scans_id_seq := user_scans0_id_seq d |}.

(* ===================================================================== *)
(** * Row predicates *)
(* ===================================================================== *)

(** A stored confidence lies in the closed interval [0,1]. *)
Definition in_unit_interval (c : float8) : Prop :=
  match c with
  | Fin q => (0 <= q)%Q ∧ (q <= 1)%Q
  | _ => False
  end.

Definition confidence_in_range (r : artwork) : Prop :=
  ∀ c, confidence_score r = Some c → in_unit_interval c.

(** The source column holds one of the four tiers. *)
Definition source_is_tier (r : artwork) : Prop :=
  ∃ s, source r = Some s ∧ s ∈ source_values.

(** The source column, when it is not NULL, holds one of the four tiers. *)
Definition source_null_or_tier (r : artwork) : Prop :=
  ∀ s, source r = Some s → s ∈ source_values.

(** A verified row comes from a museum or an administrator. *)
Definition verified_by_museum_or_admin (r : artwork) : Prop :=
  is_verified r = Some true →
  source r = Some "museum_api"%string ∨ source r = Some "admin"%string.

(** The rows a statement writes into [artworks]. *)
Definition written (st : statement) (d : db) : list artwork :=
  match st with
  | InsertArtwork now i => [new_artwork_row now i d]
  | UpdateArtwork id s => apply_set s <$> filter (λ r, art_id r = id) (artworks d)
  | _ => []
  end.

(** Every statement of a run writes only rows in which a verified row has
    source museum_api or admin. *)
Fixpoint respects_verified (sts : list statement) (d : db) : Prop :=
  match sts with
  | [] => True
  | st :: sts' =>
      Forall verified_by_museum_or_admin (written st d) ∧
      respects_verified sts' (exec_or_keep st d)
  end.

(** ** Integrity of the store *)

(** Referential integrity: every [museum_id] and every [artwork_id] that is
    not NULL names an existing row. *)
Definition fk_ok (d : db) : Prop :=
  Forall (λ r, museum_exists d (museum_id r) = true) (artworks d) ∧
  Forall (λ s, artwork_exists d (artwork_id s) = true) (user_scans d).

(** The primary keys: no id occurs twice in its table. *)
Definition pk_ok (d : db) : Prop :=
  NoDup (mus_id <$> museums d) ∧ NoDup (art_id <$> artworks d) ∧
  NoDup (scan_id <$> user_scans d).

(** [INSERT INTO museums (...) VALUES (...) ON CONFLICT DO NOTHING]: a
    unique violation is swallowed and leaves the table as it was. *)
Definition insert_museum_on_conflict_do_nothing (now : Z) (name : string)
    (loc : point) (radius : option Z) (d : db) : result db :=
  match insert_museum now name loc radius d with
  | Err (unique_violation _) => Ok d
  | r => r
  end.

(** The sample data of the schema script: the Metropolitan Museum of Art,
    [POINT(-73.9631, 40.7794)], radius 200. *)
Definition insert_sample_museum (now : Z) (d : db) : result db :=
  insert_museum_on_conflict_do_nothing now "Metropolitan Museum of Art"
    (-739631 # 10000, 407794 # 10000)%Q (Some 200) d.

(** [DELETE FROM artworks WHERE id = a], for each [a] of a list in turn. *)
Definition delete_artworks (ids : list Z) (d : db) : db :=
  foldl (λ d a, delete_artwork a d) d ids.

(* ===================================================================== *)
(** * The result UI *)
(* ===================================================================== *)

Module Frontend.

(** [description: any]: the backend sends a string, or an object with
    optional [description] and [style] members, or nothing. *)
Inductive description_any :=
  | DescString (s : string)
  | DescObject (description : option string) (style : option string)
  | DescNullish.

(** [interface Artwork], with the two extra members ([similarity],
    [confidence]) of the [artwork] of a [ScanResult].  An optional member
    is [None] when it is absent. *)
Record Artwork := {
  id : Z;
  title : string;
  artist : string;
  description : description_any;
  image_url : option string;
  is_verified : option bool;
  source : option string;
  confidence_score : option Q;
  year : option Z;
  similarity : option Q;
  confidence : option string;
}.

Inductive Status :=
  | match_found | verified_result | community_result | ai_analysis | not_art.

#[global] Instance Status_eq_dec : EqDecision Status.
Proof. solve_decision. Defined.

(** [interface ScanResult]. *)
Record ScanResult := {
  status : Status;
  artwork : option Artwork;
  analysis : option string;
  message : option string;
  ai_generated : bool;
  badge : option string;
  cataloged : option bool;
}.

(** JavaScript truthiness of the values that the components test. *)
Definition truthy_string (s : option string) : bool :=
  match s with
  | Some s => negb (bool_decide (s = ""%string))
  | None => false
  end.

Definition truthy_number (n : option Q) : bool :=
  match n with
  | Some q => negb (Qeq_bool q 0)
  | None => false
  end.

Definition truthy_bool (b : option bool) : bool := default false b.

(** What pressing the report control does: [handleReportIssue] and
    [reportIssue] open the "Report Issue" alert for the artwork. *)
Inductive effect :=
  | ReportIssueAlert (artworkId : Z).

Definition handler := Z → effect.

Definition handleReportIssue : handler := ReportIssueAlert.

(** ** [ResultCard.tsx] *)

Inductive trust_badge := OFFICIAL_COLLECTION | AI_ANALYSIS.

Inductive element :=
  | Badge (b : trust_badge)
  | CloseIcon
  | Header (title artist : string) (year : option Z)
  | FactBox (border : trust_badge) (text : string)
  | HeroImage (uri : string)
  | DetailStyle (style : string)
  | DetailMatch (similarity : Q)
  | BareNumber (n : Q)
  | ReportLink (onPress : effect)
  | PlayButton
  | AskButton.

(** [const isVerified = artwork.is_verified ?? false] *)
Definition isVerified (a : Artwork) : bool := default false (is_verified a).

(** [typeof artwork.description === 'string' ? artwork.description
      : artwork.description?.description || ''] *)
Definition descriptionText (a : Artwork) : string :=
  match description a with
  | DescString s => s
  | DescObject (Some d) _ => d
  | _ => ""%string
  end.

Definition description_style (a : Artwork) : option string :=
  match description a with
  | DescObject _ st => st
  | _ => None
  end.

Definition when {A} (b : bool) (x : A) : list A := if b then [x] else [].

(** The elements that [ResultCard] renders inside its modal; [None] is the
    [return null] of a missing artwork. *)
Definition ResultCard (visible : bool) (artwork : option Artwork)
    (similarity : option Q) (onReportIssue : option handler)
    : option (list element) :=
  match artwork with
  | None => None
  | Some a =>
      let text := descriptionText a in
      Some (
        [ Badge (if isVerified a then OFFICIAL_COLLECTION else AI_ANALYSIS);
          CloseIcon;
          (* [{artwork.year ? ` • ${artwork.year}` : ''}]: a year of 0 is falsy *)
          Header (title a) (artist a)
                 (match year a with
                  | Some y => if bool_decide (y = 0) then None else Some y
                  | None => None
                  end);
          (* [descriptionText.slice(0, 150)] and the ellipsis; the quotation
             marks around the text are left out *)
          FactBox (if isVerified a then OFFICIAL_COLLECTION else AI_ANALYSIS)
                  (String.substring 0 150 text ++
                   (if (150 <? String.length text)%nat then "..." else ""))%string ]
        ++ match image_url a with
           | Some u =>
               when (truthy_string (Some u) &&
                     negb (bool_decide (u = "placeholder_url"%string)))
                    (HeroImage u)
           | None => []
           end
        ++ match description_style a with
           | Some st => when (truthy_string (Some st)) (DetailStyle st)
           | None => []
           end
        ++ match similarity with
           | Some q =>
               (* [{similarity && (...)}]: a falsy number is itself rendered *)
               [ if truthy_number (Some q) then DetailMatch q else BareNumber q ]
           | None => []
           end
        ++ match onReportIssue with
           | Some h => when (negb (isVerified a)) (ReportLink (h (id a)))
           | None => []
           end
        ++ [ PlayButton; AskButton ])
  end.

Definition is_ReportLink (e : element) : bool :=
  match e with ReportLink _ => true | _ => false end.

Definition is_Badge (e : element) : bool :=
  match e with Badge _ => true | _ => false end.

(** Whether the card offers the report action, and the badges it shows. *)
Definition offers_report (out : option (list element)) : bool :=
  match out with
  | Some els => existsb is_ReportLink els
  | None => false
  end.

Definition badges (out : option (list element)) : list element :=
  match out with
  | Some els => List.filter is_Badge els
  | None => []
  end.

(** ** [app/scan/index.tsx] *)

(** [{result && result.artwork && (<ResultCard ... onReportIssue=
      {!result.artwork.is_verified ? handleReportIssue : undefined} />)}] *)
Definition scan_index_ResultCard (showResult : bool) (result : option ScanResult)
    : option (list element) :=
  match result with
  | Some r =>
      match artwork r with
      | Some a =>
          ResultCard showResult (Some a) (similarity a)
            (if negb (truthy_bool (is_verified a)) then Some handleReportIssue
             else None)
      | None => None
      end
  | None => None
  end.

(** ** [src/screens/ScanScreen.tsx] *)

Inductive modal_badge :=
  | Official_Museum_Data       (* styles.verifiedBadge *)
  | AI_Analysis                (* styles.aiBadge, matched entry *)
  | AI_Estimate.               (* styles.aiBadge, new entry *)

Inductive modal_text :=
  | Plain (s : string)
  | Stringified (d : description_any).

Inductive modal_element :=
  | ModalBadge (b : modal_badge)
  | ModalTitle (s : string)
  | ModalArtist (s : string)
  | ModalImage (uri : string)
  | ModalDescription (t : modal_text)
  | ModalSimilarity (q : Q)
  | ModalConfidence (s : string)
  | ModalBareNumber (n : Q)
  | ModalReportButton (onPress : effect)
  | ModalNotArt (message : option string).

Definition reportIssue : handler := ReportIssueAlert.

(** [typeof d === 'string' ? d : d?.description || JSON.stringify(d, null, 2)] *)
Definition modal_description (a : Artwork) : modal_text :=
  match description a with
  | DescString s => Plain s
  | DescObject (Some s) st =>
      if truthy_string (Some s) then Plain s else Stringified (description a)
  | d => Stringified d
  end.

Definition modal_image (a : Artwork) : list modal_element :=
  match image_url a with
  | Some u =>
      when (truthy_string (Some u) &&
            negb (bool_decide (u = "placeholder_url"%string)))
           (ModalImage u)
  | None => []
  end.

Definition modal_similarity (a : Artwork) : list modal_element :=
  match similarity a with
  | Some q =>
      [ if truthy_number (Some q) then ModalSimilarity q else ModalBareNumber q ]
  | None => []
  end.

(** [{result.artwork.id && (<TouchableOpacity ... reportIssue(id) />)}] *)
Definition modal_report (a : Artwork) : list modal_element :=
  [ if bool_decide (id a = 0) then ModalBareNumber 0
    else ModalReportButton (reportIssue (id a)) ].

Definition modal_confidence (a : Artwork) : list modal_element :=
  match confidence a with
  | Some c => when (truthy_string (Some c)) (ModalConfidence c)
  | None => []
  end.

Definition block {A} (cond : bool) (els : list A) : list A :=
  if cond then els else [].

(** [(status === 'verified_result' ||
      (status === 'match_found' && artwork?.is_verified)) && artwork && ...] *)
Definition verified_block (r : ScanResult) : list modal_element :=
  match artwork r with
  | Some a =>
      block (bool_decide (status r = verified_result) ||
             bool_decide (status r = match_found) && truthy_bool (is_verified a))
        ([ModalBadge Official_Museum_Data; ModalTitle (title a);
          ModalArtist (artist a)]
         ++ modal_image a
         ++ [ModalDescription (modal_description a)]
         ++ modal_similarity a)
  | None => []
  end.

(** [(status === 'community_result' ||
      (status === 'match_found' && !artwork?.is_verified)) && artwork && ...] *)
Definition community_block (r : ScanResult) : list modal_element :=
  match artwork r with
  | Some a =>
      block (bool_decide (status r = community_result) ||
             bool_decide (status r = match_found) &&
             negb (truthy_bool (is_verified a)))
        ([ModalBadge AI_Analysis; ModalTitle (title a); ModalArtist (artist a)]
         ++ modal_image a
         ++ [ModalDescription (modal_description a)]
         ++ modal_similarity a
         ++ modal_report a)
  | None => []
  end.

(** [status === 'ai_analysis' && artwork && ...] *)
Definition ai_analysis_block (r : ScanResult) : list modal_element :=
  match artwork r with
  | Some a =>
      block (bool_decide (status r = ai_analysis))
        ([ModalBadge AI_Estimate; ModalTitle (title a); ModalArtist (artist a);
          ModalDescription (modal_description a)]
         ++ modal_confidence a
         ++ modal_report a)
  | None => []
  end.

(** [status === 'not_art' && ...] *)
Definition not_art_block (r : ScanResult) : list modal_element :=
  block (bool_decide (status r = not_art)) [ModalNotArt (message r)].

(** The content of the result modal of [ScanScreen]: four blocks, each
    under its own condition. *)
Definition ScanScreen_modal (result : option ScanResult) : list modal_element :=
  match result with
  | None => []
  | Some r =>
      verified_block r ++ community_block r ++ ai_analysis_block r
      ++ not_art_block r
  end.

Definition is_ModalBadge (e : modal_element) : bool :=
  match e with ModalBadge _ => true | _ => false end.

Definition modal_badges (els : list modal_element) : list modal_element :=
  List.filter is_ModalBadge els.

End Frontend.

(* ===================================================================== *)
(** * The screens *)
(* ===================================================================== *)

Module Screens.
Import Frontend.

(** ** Awaited values *)

(** What a [catch] receives: an [Error] with its message, or another
    value ([error instanceof Error ? error.message : ...]). *)
Inductive thrown :=
  | ThrownError (message : string)
  | ThrownValue.

(** The outcome of an [await]. *)
Inductive awaited (A : Type) :=
  | Resolved (a : A)
  | Rejected (t : thrown).
Arguments Resolved {A} a.
Arguments Rejected {A} t.

(** The [Response] of a [fetch]: [ok], [statusText] and the outcome of
    [response.json()]. *)
Record Response (A : Type) := {
  ok : bool;
  statusText : string;
  json : awaited A;
}.
Arguments ok {A} r.
Arguments statusText {A} r.
Arguments json {A} r.

(** What a handler does that the user or the backend can observe, in
    order.  The numbers of a form are kept as numbers, before their
    [toString()], except the artwork id of a report. *)
Inductive event :=
  | AlertShown (title message : string)
  | ImpactHaptic
  | SuccessHaptic
  | ConsoleError
  | ScanPosted (uri : string) (latitude longitude : Q) (user_id : string)
  | ReportPosted (artwork_id user_id issue_type description : string).

Definition is_alert (e : event) : bool :=
  match e with AlertShown _ _ => true | _ => false end.

Definition is_post (e : event) : bool :=
  match e with ScanPosted _ _ _ _ | ReportPosted _ _ _ _ => true | _ => false end.

(** ** The scan handler: [handleScan] of [app/scan/index.tsx] and
       [takePicture] of [ScanScreen.tsx] *)

(** The state of the scan screen ([useState]). *)
Record screen_state := {
  locationPermission : option bool;
  isScanning : bool;
  result : option ScanResult;
  showResult : bool;
}.

(** What the handler reads and awaits: the camera ref, the camera
    permission ([None] while the hook has none), the photo
    ([takePictureAsync] may resolve to [undefined]; otherwise its [uri]),
    the position and the response of the backend.  [type_error] is the
    message of the [TypeError] that [photo.uri] throws on [undefined]. *)
Record scan_env := {
  camera_ready : bool;
  permission : option bool;
  photo : awaited (option string);
  position : awaited (Q * Q);
  scan_response : awaited (Response ScanResult);
  type_error : string;
}.

(** [error instanceof Error ? error.message
      : 'Failed to scan artwork. Please try again.'] *)
Definition scan_failure_message (t : thrown) : string :=
  match t with
  | ThrownError m => m
  | ThrownValue => "Failed to scan artwork. Please try again."
  end.

Definition set_scanning (b : bool) (st : screen_state) : screen_state :=
  {| locationPermission := locationPermission st; isScanning := b;
     result := result st; showResult := showResult st |}.

Definition set_result (data : ScanResult) (st : screen_state) : screen_state :=
  {| locationPermission := locationPermission st; isScanning := isScanning st;
     result := Some data; showResult := true |}.

(** The [try] block: the photo, the position, the POST and its JSON; the
    events so far and the data, or what was thrown. *)
Definition scan_attempt (env : scan_env) : list event * awaited ScanResult :=
  match photo env with
  | Rejected t => ([], Rejected t)
  | Resolved picture =>
      match position env with
      | Rejected t => ([], Rejected t)
      | Resolved (latitude, longitude) =>
          match picture with
          | None => ([], Rejected (ThrownError (type_error env)))
          | Some uri =>
              let posted := [ScanPosted uri latitude longitude "anonymous"] in
              match scan_response env with
              | Rejected t => (posted, Rejected t)
              | Resolved response =>
                  if ok response then (posted, json response)
                  else (posted,
                        Rejected
                          (ThrownError ("API error: " ++ statusText response)))
              end
          end
      end
  end.

(** The handler run to its end, with the state it leaves and the events it
    caused.  [haptics] is true for [handleScan], which adds the two haptic
    calls, and false for [takePicture]. *)
Definition scan_handler (haptics : bool) (env : scan_env) (st : screen_state)
    : screen_state * list event :=
  if negb (camera_ready env) || negb (default false (permission env)) then
    (st, [AlertShown "Permission Required"
            "Camera permission is required to scan artworks."])
  else if bool_decide (locationPermission st = Some false) then
    (st, [AlertShown "Location Required"
            "Location permission is required for accurate results."])
  else
    let '(events, outcome) := scan_attempt env in
    match outcome with
    | Resolved data =>
        (set_scanning false (set_result data (set_scanning true st)),
         when haptics ImpactHaptic ++ events ++ when haptics SuccessHaptic)
    | Rejected t =>
        (set_scanning false (set_scanning true st),
         when haptics ImpactHaptic ++ events
         ++ [ConsoleError; AlertShown "Scan Failed" (scan_failure_message t)])
    end.

Definition handleScan := scan_handler true.
Definition takePicture := scan_handler false.

(** ** Reporting an issue: [handleReportIssue] and [submitReport] *)

(** A button of an [Alert.alert]; [onPress] holds the arguments of the
    [submitReport] call it makes. *)
Record alert_button := {
  text : string;
  cancel : bool;
  onPress : option (Z * string);
}.

(** The buttons of the "Report Issue" alert. *)
Definition report_buttons (artworkId : Z) : list alert_button :=
  [ {| text := "Wrong Title"; cancel := false;
       onPress := Some (artworkId, "wrong_title"%string) |};
    {| text := "Wrong Artist"; cancel := false;
       onPress := Some (artworkId, "wrong_artist"%string) |};
    {| text := "Not an Artwork"; cancel := false;
       onPress := Some (artworkId, "not_artwork"%string) |};
    {| text := "Cancel"; cancel := true; onPress := None |} ].

(** The alert that an [effect] of the result UI opens. *)
Definition buttons_of (e : effect) : list alert_button :=
  match e with ReportIssueAlert artworkId => report_buttons artworkId end.

(** [submitReport(artworkId, issueType)], given the outcome of the POST
    ([response.ok], or what [fetch] threw). *)
Definition submitReport (artworkId : Z) (issueType : string)
    (response : awaited bool) : list event :=
  ReportPosted (pretty artworkId) "anonymous" issueType ""
  :: match response with
     | Resolved true =>
         [AlertShown "Thank You"
            "Your report has been submitted. We will review it."]
     | Resolved false =>
         [AlertShown "Error" "Failed to submit report. Please try again."]
     | Rejected _ =>
         [ConsoleError;
          AlertShown "Error" "Failed to submit report. Please try again."]
     end.

(** ** What [app/scan/index.tsx] lays over the camera *)

Inductive overlay :=
  | ResultCardModal (visible : bool) (elements : list element)
  | NotArtModal (visible : bool) (message : option string).

(** [{result && result.artwork && (<ResultCard visible={showResult} .../>)}]
    and [{result && result.status === 'not_art' && (<Modal .../>)}] *)
Definition overlays (st : screen_state) : list overlay :=
  match result st with
  | None => []
  | Some r =>
      match scan_index_ResultCard (showResult st) (Some r) with
      | Some els => [ResultCardModal (showResult st) els]
      | None => []
      end
      ++ block (bool_decide (status r = not_art))
               [NotArtModal (showResult st) (message r)]
  end.

(** [onClose] and [onRequestClose]: [setShowResult(false); setResult(null)] *)
Definition onClose (st : screen_state) : screen_state :=
  {| locationPermission := locationPermission st; isScanning := isScanning st;
     result := None; showResult := false |}.

(** ** The root layout and the onboarding flow *)

(** [AsyncStorage]. *)
Definition onboarding_key : string := "onboarding_complete".

Inductive layout_view := Loading | OnboardingFlow | MainStack.

(** [RootLayout]: the view for each value of [isOnboardingComplete]. *)
Definition RootLayout (isOnboardingComplete : option bool) : layout_view :=
  match isOnboardingComplete with
  | None => Loading
  | Some false => OnboardingFlow
  | Some true => MainStack
  end.

(** [checkOnboardingStatus]: [setIsOnboardingComplete(value === 'true')],
    and [false] when [getItem] throws. *)
Definition checkOnboardingStatus (read : awaited (option string)) : option bool :=
  match read with
  | Resolved value => Some (bool_decide (value = Some "true"%string))
  | Rejected _ => Some false
  end.

(** [AsyncStorage.getItem(key)]; the store may fail to read. *)
Definition getItem (readable : bool) (key : string) (s : gmap string string)
    : awaited (option string) :=
  if readable then Resolved (s !! key)
  else Rejected (ThrownError "storage unavailable").

(** The view after the mount effect of a launch. *)
Definition launch (readable : bool) (s : gmap string string) : layout_view :=
  RootLayout (checkOnboardingStatus (getItem readable onboarding_key s)).

(** [handleEnterMuseum]: [await AsyncStorage.setItem('onboarding_complete',
    'true'); onComplete()], where [onComplete] is [handleOnboardingComplete]
    of the layout.  When [setItem] throws nothing is caught and
    [onComplete] is not reached. *)
Definition handleEnterMuseum (writable : bool) (s : gmap string string)
    (isOnboardingComplete : option bool) : gmap string string * option bool :=
  if writable then (<[onboarding_key := "true"%string]> s, Some true)
  else (s, isOnboardingComplete).

(** The page of the onboarding pager. *)
Definition handleNext (pagerRef : bool) (currentPage : Z) : Z :=
  if pagerRef then
    let nextPage := currentPage + 1 in
    if nextPage <? 4 then nextPage else currentPage
  else currentPage.

(** [handleCameraPermission]: [if (status === 'granted') handleNext()] *)
Definition handleCameraPermission (pagerRef : bool) (status : string)
    (currentPage : Z) : Z :=
  if bool_decide (status = "granted"%string) then handleNext pagerRef currentPage
  else currentPage.

(** What the user does on the first three pages. *)
Inductive page_action :=
  | PressContinue
  | PressEnableCamera (status : string)
  | Swipe (position : Z).

Definition page_step (pagerRef : bool) (currentPage : Z) (a : page_action) : Z :=
  match a with
  | PressContinue => handleNext pagerRef currentPage
  | PressEnableCamera status => handleCameraPermission pagerRef status currentPage
  | Swipe position => position
  end.

(** [{[0, 1, 2, 3].map((index) => ... currentPage === index &&
      styles.indicatorActive)}] *)
Definition indicators (currentPage : Z) : list bool :=
  (λ index, bool_decide (currentPage = index)) <$> [0; 1; 2; 3].

(** ** The first [ResultCard] (the bottom sheet) *)

Inductive sheet_element :=
  | SheetBadge (b : trust_badge)
  | SheetTitle (s : string)
  | SheetArtist (s : string)
  | SheetYear (y : Z)
  | SheetBareNumber (n : Q)
  | SheetImage (uri : string)
  | SheetFact (text : string)
  | SheetStyle (style : string)
  | SheetMatch (similarity : Q)
  | SheetReport (onPress : effect)
  | SheetAudio
  | SheetClose.

(** [descriptionText || 'This artwork has a fascinating history waiting to
    be discovered.'] *)
Definition sheet_fact (a : Artwork) : string :=
  if truthy_string (Some (descriptionText a)) then descriptionText a
  else "This artwork has a fascinating history waiting to be discovered.".

Definition ResultSheet (visible : bool) (a : Artwork) (similarity : option Q)
    (onReportIssue : option handler) : list sheet_element :=
  [ SheetBadge (if isVerified a then OFFICIAL_COLLECTION else AI_ANALYSIS);
    SheetTitle (title a); SheetArtist (artist a) ]
  ++ match year a with
     | Some y => [ if bool_decide (y = 0) then SheetBareNumber 0 else SheetYear y ]
     | None => []
     end
  ++ match image_url a with
     | Some u =>
         when (truthy_string (Some u) &&
               negb (bool_decide (u = "placeholder_url"%string)))
              (SheetImage u)
     | None => []
     end
  ++ [ SheetFact (sheet_fact a) ]
  ++ match description_style a with
     | Some st => when (truthy_string (Some st)) (SheetStyle st)
     | None => []
     end
  ++ match similarity with
     | Some q => [ if truthy_number (Some q) then SheetMatch q else SheetBareNumber q ]
     | None => []
     end
  ++ match onReportIssue with
     | Some h => when (negb (isVerified a)) (SheetReport (h (id a)))
     | None => []
     end
  ++ [ SheetAudio; SheetClose ].

Definition is_haptic (e : event) : bool :=
  match e with ImpactHaptic | SuccessHaptic => true | _ => false end.

(** A swipe lands on one of the four pages of the pager. *)
Definition on_a_page (a : page_action) : Prop :=
  match a with
  | Swipe position => 0 ≤ position ≤ 3
  | _ => True
  end.

(** What the sheet and the card that replaced it both render, in the
    card's elements. *)
Definition sheet_core (e : sheet_element) : list element :=
  match e with
  | SheetBadge b => [Badge b]
  | SheetImage uri => [HeroImage uri]
  | SheetStyle style => [DetailStyle style]
  | SheetMatch q => [DetailMatch q]
  | SheetBareNumber n => [BareNumber n]
  | SheetReport e => [ReportLink e]
  | _ => []
  end.

Definition card_core (e : element) : bool :=
  match e with
  | Badge _ | HeroImage _ | DetailStyle _ | DetailMatch _ | BareNumber _
  | ReportLink _ => true
  | _ => false
  end.

Definition is_ModalReport (e : modal_element) : bool :=
  match e with ModalReportButton _ => true | _ => false end.

Definition is_FactBox (e : element) : bool :=
  match e with FactBox _ _ => true | _ => false end.

Definition overlay_visible (o : overlay) : bool :=
  match o with
  | ResultCardModal visible _ => visible
  | NotArtModal visible _ => visible
  end.

End Screens.

(* ===================================================================== *)
(** * The scan pipeline *)
(* ===================================================================== *)

(** The backend ([main.py], [app/utils/vision.py]) is not among the
    sources; its components are modelled from the specification, on top
    of the schema above. *)

(** Modelled from the spec: [imageBytes]. *)
Definition image := string.

(** Modelled from the spec: the result of the Fallback Analysis Dispatcher's
    [analyze], "{label, description, isArtwork, confidence}" (the backend's
    own type is missing). *)
Record analysis := {
  label : string;
  an_description : string;
  isArtwork : bool;
  an_confidence : float8;
}.

(** Modelled from the spec: the external collaborators, "capability
    interfaces (functions with defined input/output contracts and failure
    modes)": the embedding model, the generative analysis service, the
    metric of the similarity index and the great-circle (haversine)
    distance in meters.  [None] is a failed external call. *)
Class Services := {
  embedding_model : image → option (list Q);
  generative_analysis : image → option analysis;
  cosine_distance : embedding → embedding → Q;
  great_circle_distance : point → point → Q;
}.

(** Modelled from the spec: the output tier of a match. *)
Inductive tier := verified | community.

(** Modelled from the spec: the result of the Vector Match Engine,
    "{tier, artwork, distance} | NoMatch". *)
Inductive match_result :=
  | Match (t : tier) (a : artwork) (distance : Q)
  | NoMatch.

(** Modelled from the spec: how a request resolved to its artwork, "one as
    creator, one as matcher". *)
Inductive role := creator | matcher.

(** Modelled from the spec: the failures that surface as a scan failure;
    a statement that the store rejects is one of them. *)
Inductive scan_error :=
  | EmbeddingUnavailable
  | AnalysisUnavailable
  | StoreError (e : sql_error).

(** Modelled from the spec: the terminal status of a scan: a match
    ([verified_result] or [community_result] by tier), [ai_analysis] with
    the artwork obtained from the Coordinator, [not_art], or a scan
    failure. *)
Inductive outcome :=
  | Matched (t : tier) (a : artwork) (distance : Q)
  | AiAnalysis (a : artwork) (r : role)
  | NotArt
  | ScanFailed (e : scan_error).

(** Modelled from the spec: the arguments of
    [submitScan(imageBytes, lat, lon, userId)]; the image is also held in
    object storage under [req_image_url]. *)
Record scan_request := {
  req_image : image;
  req_image_url : option string;
  req_lat : Q;
  req_lon : Q;
  req_user : string;
}.

Section Pipeline.
Context `{Services}.

(** Modelled from the spec: the Embedding Gateway's [embed], which "fails
    with EmbeddingUnavailable if the external model call errors or returns a
    vector of wrong dimension". *)
Definition embed (img : image) : option embedding :=
  match embedding_model img with
  | Some v => if bool_decide (length v = embedding_dim) then Some v else None
  | None => None
  end.

(** Modelled from the spec: the test of the Geofence Validator, "great-circle
    distance from (lat,lon) to the museum's point ≤
    museum.geofence_radius_meters". *)
Definition within_geofence (lat lon : Q) (m : museum) : bool :=
  Qle_bool (great_circle_distance (lon, lat) (location m))
           (inject_Z (geofence_radius_meters m)).

(** Modelled from the spec: the Geofence Validator's [candidateMuseums],
    the set of the ids of the museums that pass the test; it "returns the
    empty set if no museum qualifies". *)
Definition candidateMuseums (lat lon : Q) (d : db) : gset Z :=
  list_to_set (mus_id <$> List.filter (within_geofence lat lon) (museums d)).

(** Modelled from the spec (and the backend's README): the fixed
    threshold on the cosine distance, 0.15. *)
Definition threshold : Q := 15 # 100.

(** Modelled from the spec: the pool searched for a scope.  An artwork is
    in it when it is unaffiliated or its museum is in the scope ("within
    A's museum's geofence (or A is unaffiliated)"); with the empty scope
    this is "the unaffiliated/global artwork pool". *)
Definition in_scope (scope : gset Z) (a : artwork) : bool :=
  match museum_id a with
  | None => true
  | Some m => bool_decide (m ∈ scope)
  end.

(** Modelled from the spec: the cosine distance from a query to a stored
    artwork; a row without an embedding has none. *)
Definition distance_to (e : embedding) (a : artwork) : option Q :=
  cosine_distance e <$> art_embedding a.

(** Modelled from the spec: "A candidate is accepted only if cosine
    distance < 0.15". *)
Definition candidate (e : embedding) (scope : gset Z) (a : artwork) : bool :=
  in_scope scope a &&
  match distance_to e a with
  | Some dist => negb (Qle_bool threshold dist)
  | None => false
  end.

(** Modelled from the spec: "prefer the candidate with source tier
    museum_api/admin". *)
Definition preferred (a : artwork) : bool :=
  bool_decide (source a = Some "museum_api"%string) ||
  bool_decide (source a = Some "admin"%string).

(** Modelled from the spec: [beats e a b], by "the smallest distance wins;
    on exact ties, prefer the candidate with source tier museum_api/admin
    (verified) over ai_generated/community".  Among candidates that tie on
    both, the earlier row is kept. *)
Definition beats (e : embedding) (a b : artwork) : bool :=
  match distance_to e a, distance_to e b with
  | Some x, Some y =>
      negb (Qle_bool y x) || (Qeq_bool x y && preferred a && negb (preferred b))
  | _, _ => false
  end.

(** Modelled from the spec: the running winner after one more candidate,
    and the winner among all of them. *)
Definition pick (e : embedding) (best : option artwork) (a : artwork) : option artwork :=
  match best with
  | None => Some a
  | Some b => if beats e a b then Some a else Some b
  end.

Definition nearest (e : embedding) (l : list artwork) : option artwork :=
  foldl (pick e) None l.

(** Modelled from the spec: "Output tier is derived from the winning
    artwork's flags: verified if is_verified, else community". *)
Definition tier_of (a : artwork) : tier :=
  if bool_decide (is_verified a = Some true) then verified else community.

(** Modelled from the spec: the Vector Match Engine's [match], the nearest
    of the candidates in scope, with its tier and distance, or NoMatch. *)
Definition match_engine (e : embedding) (scope : gset Z) (d : db) : match_result :=
  match nearest e (List.filter (candidate e scope) (artworks d)) with
  | Some a =>
      match distance_to e a with
      | Some dist => Match (tier_of a) a dist
      | None => NoMatch
      end
  | None => NoMatch
  end.

(** Modelled from the spec: the Fallback Analysis Dispatcher's [analyze];
    [None] is [AnalysisUnavailable]. *)
Definition analyze (img : image) : option analysis := generative_analysis img.

(** Modelled from the spec: the row the Auto-Cataloging Coordinator
    creates, "with is_verified = false, source = ai_generated,
    confidence_score = the Dispatcher's reported confidence".  The label is
    the proposed title, the row is unaffiliated, and [is_verified] and
    [source] are left to the DEFAULTs of the migration. *)
Definition creation_request (req : scan_request) (e : embedding) (an : analysis)
    : artworks_insert :=
  {| ins_museum_id := None;
     ins_title := label an;
     ins_artist := None;
     ins_description_json := Some (an_description an);
     ins_image_url := req_image_url req;
     ins_embedding := Some e;
     ins_is_verified := DEFAULT;
     ins_source := DEFAULT;
     ins_confidence_score := Some (an_confidence an) |}.

(** ** One scan, step by step *)

(** Modelled from the spec: where a scan stands.  Every step is one
    "blocking/awaitable boundary" of the worker: an external call or one
    store transaction. *)
Inductive pc :=
  | Start
  | Geofence (e : embedding)
  | Matching (e : embedding) (scope : gset Z)
  | Analyzing (e : embedding) (scope : gset Z)
  | Recheck (e : embedding) (scope : gset Z) (an : analysis)
  | Insert (e : embedding) (scope : gset Z) (an : analysis)
  | Requery (e : embedding) (scope : gset Z) (an : analysis)
  | Ledger (o : outcome) (art : option Z)
  | Done (o : outcome).

(** Modelled from the spec: the shared state, "the transactional store
    [as] the single source of truth", with its clock ([NOW()]). *)
Record world := { store : db; clock : Z }.

Definition tick (w : world) : world :=
  {| store := store w; clock := clock w + 1 |}.

Definition commit (d : db) (w : world) : world :=
  {| store := d; clock := clock w + 1 |}.

(** Modelled from the spec: the Coordinator's insert "under a
    uniqueness/serialization guarantee provided by the transactional
    store": in one transaction the query is run again, the insert is
    rejected (StoreConflict) when a qualifying match now exists, and the
    row is inserted otherwise. *)
Definition guarded_insert (req : scan_request) (e : embedding) (scope : gset Z)
    (an : analysis) (w : world) : pc * world :=
  match match_engine e scope (store w) with
  | Match _ _ _ => (Requery e scope an, tick w)
  | NoMatch =>
      match insert_artwork (clock w) (creation_request req e an) (store w) with
      | Ok d' =>
          let a := new_artwork_row (clock w) (creation_request req e an) (store w) in
          (Ledger (AiAnalysis a creator) (Some (art_id a)), commit d' w)
      | Err err => (Done (ScanFailed (StoreError err)), tick w)
      end
  end.

(** Modelled from the spec: the control flow "Embedding Gateway → Geofence
    Validator → Vector Match Engine → (match: Scan Ledger) or (no match:
    Fallback Analysis Dispatcher → Auto-Cataloging Coordinator → Scan
    Ledger)", with the Coordinator's double check, guarded insert and
    re-query on conflict. *)
Definition worker_step (req : scan_request) (p : pc) (w : world) : pc * world :=
  match p with
  | Start =>
      match embed (req_image req) with
      | Some e => (Geofence e, tick w)
      | None => (Done (ScanFailed EmbeddingUnavailable), tick w)
      end
  | Geofence e =>
      (Matching e (candidateMuseums (req_lat req) (req_lon req) (store w)), tick w)
  | Matching e scope =>
      match match_engine e scope (store w) with
      | Match t a dist => (Ledger (Matched t a dist) (Some (art_id a)), tick w)
      | NoMatch => (Analyzing e scope, tick w)
      end
  | Analyzing e scope =>
      match analyze (req_image req) with
      | Some an =>
          if isArtwork an then (Recheck e scope an, tick w)
          else (Ledger NotArt None, tick w)
      | None => (Done (ScanFailed AnalysisUnavailable), tick w)
      end
  | Recheck e scope an =>
      match match_engine e scope (store w) with
      | Match _ a _ => (Ledger (AiAnalysis a matcher) (Some (art_id a)), tick w)
      | NoMatch => (Insert e scope an, tick w)
      end
  | Insert e scope an => guarded_insert req e scope an w
  | Requery e scope an =>
      match match_engine e scope (store w) with
      | Match _ a _ => (Ledger (AiAnalysis a matcher) (Some (art_id a)), tick w)
      | NoMatch => (Insert e scope an, tick w)
      end
  | Ledger o art =>
      match insert_user_scan (clock w) (req_user req) art (req_image_url req)
                             (store w) with
      | Ok d' => (Done o, commit d' w)
      | Err err => (Done (ScanFailed (StoreError err)), tick w)
      end
  | Done o => (Done o, w)
  end.

(** Modelled from the spec: a scan run on its own, for at most [fuel]
    steps. *)
Fixpoint run_worker (fuel : nat) (req : scan_request) (p : pc) (w : world)
    : pc * world :=
  match fuel with
  | O => (p, w)
  | S fuel' =>
      match p with
      | Done _ => (p, w)
      | _ => let '(p', w') := worker_step req p w in run_worker fuel' req p' w'
      end
  end.

(** Modelled from the spec: [submitScan], the scan run to its terminal
    status with no other scan in flight; seven steps reach it. *)
Definition submitScan (req : scan_request) (w : world) : option (outcome * world) :=
  match run_worker 7 req Start w with
  | (Done o, w') => Some (o, w')
  | _ => None
  end.

(** ** Predicates on a scan in progress *)

(** The artwork that an outcome carries. *)
Definition outcome_artwork (o : outcome) : option artwork :=
  match o with
  | Matched _ a _ => Some a
  | AiAnalysis a _ => Some a
  | _ => None
  end.

Definition pc_outcome (p : pc) : option outcome :=
  match p with
  | Ledger o _ | Done o => Some o
  | _ => None
  end.

Definition pc_scope (p : pc) : option (gset Z) :=
  match p with
  | Matching _ s | Analyzing _ s | Recheck _ s _ | Insert _ s _ | Requery _ s _ =>
      Some s
  | _ => None
  end.

(** The row that the ledger step appends to [user_scans]. *)
Definition scan_event (req : scan_request) (art : option Z) (w : world) : user_scan :=
  {| scan_id := user_scans_id_seq (store w); user_id := req_user req;
     artwork_id := art; scan_image_url := req_image_url req;
     timestamp := Some (clock w) |}.

(** ** Two scans in flight *)

Inductive worker_id := W1 | W2.

#[global] Instance worker_id_eq_dec : EqDecision worker_id.
Proof. solve_decision. Defined.

Record system := {
  shared : world;
  pc1 : pc;
  pc2 : pc;
}.

(** Modelled from the spec: "each scan request is handled by an
    independent concurrent worker"; the scheduler lets one of the two
    workers take its next step. *)
Definition system_step (req1 req2 : scan_request) (s : system) (i : worker_id)
    : system :=
  match i with
  | W1 => let '(p, w) := worker_step req1 (pc1 s) (shared s) in
          {| shared := w; pc1 := p; pc2 := pc2 s |}
  | W2 => let '(p, w) := worker_step req2 (pc2 s) (shared s) in
          {| shared := w; pc1 := pc1 s; pc2 := p |}
  end.

Definition run_system (req1 req2 : scan_request) (schedule : list worker_id)
    (s : system) : system :=
  foldl (system_step req1 req2) s schedule.

Definition turns (i : worker_id) (schedule : list worker_id) : nat :=
  length (List.filter (λ j, match i, j with W1, W1 | W2, W2 => true | _, _ => false end)
                      schedule).

Definition pc_of (i : worker_id) (s : system) : pc :=
  match i with W1 => pc1 s | W2 => pc2 s end.

(** The artwork a finished scan resolved to, and in which role. *)
Definition resolved (p : pc) : option (Z * role) :=
  match p with
  | Done (Matched _ a _) => Some (art_id a, matcher)
  | Done (AiAnalysis a r) => Some (art_id a, r)
  | _ => None
  end.

(** ** Predicates on two scans in flight *)

(** A scan that has not yet seen a match nor inserted a row. *)
Definition early (e : embedding) (scope : gset Z) (an : analysis) (p : pc) : Prop :=
  p = Start ∨ p = Geofence e ∨ p = Matching e scope ∨ p = Analyzing e scope ∨
  p = Recheck e scope an ∨ p = Insert e scope an.

(** The scan that inserted the row [r]. *)
Definition created (r : artwork) (p : pc) : Prop :=
  p = Ledger (AiAnalysis r creator) (Some (art_id r)) ∨
  p = Done (AiAnalysis r creator).

(** An outcome that resolves to the row [r] without having created it. *)
Definition follows (r : artwork) (o : outcome) : Prop :=
  (∃ dist, o = Matched community r dist) ∨ o = AiAnalysis r matcher.

(** The other scan, once [r] is in the store. *)
Definition follower (e : embedding) (scope : gset Z) (an : analysis)
    (r : artwork) (p : pc) : Prop :=
  early e scope an p ∨ p = Requery e scope an ∨
  ∃ o, follows r o ∧ (p = Ledger o (Some (art_id r)) ∨ p = Done o).

(** The row created for the query [e]. *)
Definition row_of (e : embedding) (r : artwork) : Prop :=
  art_embedding r = Some e ∧ museum_id r = None ∧ is_verified r = Some false.

(** An upper bound on the steps a scan still takes. *)
Definition steps_left (p : pc) : nat :=
  match p with
  | Start => 8
  | Geofence _ => 7
  | Matching _ _ => 6
  | Analyzing _ _ => 5
  | Recheck _ _ _ => 4
  | Insert _ _ _ => 3
  | Requery _ _ _ => 2
  | Ledger _ _ => 1
  | Done _ => 0
  end.

(** The part of the store that two racing scans leave alone: the museums,
    and scan ids below their sequence. *)
Definition world_ok (d0 : db) (w : world) : Prop :=
  museums (store w) = museums d0 ∧
  Forall (λ x, scan_id x < user_scans_id_seq (store w)) (user_scans (store w)).

(** What holds of two first-time scans of the same unseen artwork, from
    the store [d0]: no row has been created and both scans are early, or
    one scan created the single new row and the other follows it. *)
Definition race_inv (d0 : db) (e1 e2 : embedding) (scope1 scope2 : gset Z)
    (an1 an2 : analysis) (s : system) : Prop :=
  world_ok d0 (shared s) ∧
  ((artworks (store (shared s)) = artworks d0 ∧
    artworks_id_seq (store (shared s)) = artworks_id_seq d0 ∧
    early e1 scope1 an1 (pc1 s) ∧ early e2 scope2 an2 (pc2 s)) ∨
   (∃ r, artworks (store (shared s)) = artworks d0 ++ [r] ∧ row_of e1 r ∧
         created r (pc1 s) ∧ follower e2 scope2 an2 r (pc2 s)) ∨
   (∃ r, artworks (store (shared s)) = artworks d0 ++ [r] ∧ row_of e2 r ∧
         created r (pc2 s) ∧ follower e1 scope1 an1 r (pc1 s))).

End Pipeline.

(** Modelled from the spec: the [status] of a [ScanResult] for a match,
    [verified_result] or [community_result] by the output tier. *)
Definition status_of_tier (t : tier) : Frontend.Status :=
  match t with
  | verified => Frontend.verified_result
  | community => Frontend.community_result
  end.

(* ===================================================================== *)
(** * Deterministic fakes of the external services *)
(* ===================================================================== *)

Definition dot (a b : list Q) : Q := foldr Qplus 0%Q (zip_with Qmult a b).

(** The cosine distance of L2-normalised embeddings: [1 - a.b]. *)
Definition unit_cosine_distance (a b : embedding) : Q := (1 - dot a b)%Q.

(** Degrees scaled to meters (111195 m per degree), summed over both
    coordinates; along a meridian this is the great-circle distance. *)
Definition grid_distance (p q : point) : Q :=
  (111195 * (Qabs (p.1 - q.1) + Qabs (p.2 - q.2)))%Q.

Fixpoint assoc {A} (k : string) (l : list (string * A)) : option A :=
  match l with
  | [] => None
  | (k', v) :: l' => if bool_decide (k = k') then Some v else assoc k l'
  end.

(** A fake backed by two tables: the embedding and the analysis of each
    known image. *)
Definition fake_services (embeddings : list (image * list Q))
    (analyses : list (image * analysis)) : Services :=
  {| embedding_model img := assoc img embeddings;
     generative_analysis img := assoc img analyses;
     cosine_distance := unit_cosine_distance;
     great_circle_distance := grid_distance |}.

(** A vector of [embedding_dim] components that starts with [v]. *)
Definition pad (v : list Q) : embedding :=
  v ++ repeat 0%Q (embedding_dim - length v).

Definition empty_db : db :=
  {| museums := []; artworks := []; user_scans := [];
     museums_id_seq := 1; artworks_id_seq := 1; user_scans_id_seq := 1 |}.

Definition empty_db0 : db0 :=
  {| museums0 := []; artworks0 := []; user_scans0 := [];
     museums0_id_seq := 1; artworks0_id_seq := 1; user_scans0_id_seq := 1 |}.

(** The sequences are ahead of the ids in use. *)
Definition db_wf (d : db) : Prop :=
  Forall (λ m, mus_id m < museums_id_seq d) (museums d) ∧
  Forall (λ r, art_id r < artworks_id_seq d) (artworks d) ∧
  Forall (λ s, scan_id s < user_scans_id_seq d) (user_scans d).

(* ===================================================================== *)
(** * Sample data *)
(* ===================================================================== *)

Definition sample_insert (conf : option float8) : artworks_insert :=
  {| ins_museum_id := None; ins_title := "Untitled"; ins_artist := None;
     ins_description_json := None; ins_image_url := None;
     ins_embedding := None; ins_is_verified := DEFAULT; ins_source := DEFAULT;
     ins_confidence_score := conf |}.

Definition null_source_insert : artworks_insert :=
  {| ins_museum_id := None; ins_title := "Untitled"; ins_artist := None;
     ins_description_json := None; ins_image_url := None;
     ins_embedding := None; ins_is_verified := DEFAULT;
     ins_source := Given None; ins_confidence_score := None |}.

Definition source_insert (s : string) : artworks_insert :=
  {| ins_museum_id := None; ins_title := "Untitled"; ins_artist := None;
     ins_description_json := None; ins_image_url := None;
     ins_embedding := None; ins_is_verified := DEFAULT;
     ins_source := Given (Some s); ins_confidence_score := None |}.

Definition verified_insert (s : string) : artworks_insert :=
  {| ins_museum_id := None; ins_title := "Untitled"; ins_artist := None;
     ins_description_json := None; ins_image_url := None;
     ins_embedding := None; ins_is_verified := Given (Some true);
     ins_source := Given (Some s); ins_confidence_score := None |}.

Definition sample_request : scan_request :=
  {| req_image := "photo"; req_image_url := Some "https://img/1.jpg"%string;
     req_lat := 0; req_lon := 0; req_user := "anonymous" |}.

Definition sample_analysis : analysis :=
  {| label := "Water Lilies"; an_description := "A pond";
     isArtwork := true; an_confidence := Fin (7 # 10) |}.

Definition sample_museum : museum :=
  {| mus_id := 1; mus_name := "Metropolitan Museum of Art";
     location := (-739631 # 10000, 407794 # 10000)%Q;
     geofence_radius_meters := 200;
     mus_created_at := Some 0; mus_updated_at := Some 0 |}.

Definition sample_artwork (i : Z) (m : option Z) : artwork :=
  {| art_id := i; museum_id := m; title := "Untitled"; artist := None;
     description_json := None; image_url := None; art_embedding := None;
     art_created_at := Some 0; art_updated_at := Some 0;
     is_verified := Some false; source := Some "ai_generated"%string;
     confidence_score := None |}.

Definition sample_scan (i : Z) (a : option Z) : user_scan :=
  {| scan_id := i; user_id := "anonymous"; artwork_id := a;
     scan_image_url := None; timestamp := Some 0 |}.

(** One museum with one artwork, one unaffiliated artwork, and a scan of
    each. *)
Definition sample_db : db :=
  {| museums := [sample_museum];
     artworks := [sample_artwork 1 (Some 1); sample_artwork 2 None];
     user_scans := [sample_scan 1 (Some 1); sample_scan 2 (Some 2)];
     museums_id_seq := 2; artworks_id_seq := 3; user_scans_id_seq := 3 |}.

(** Unit vectors with rational coordinates, padded to 512 components. *)
Definition east : embedding := pad [1%Q].
Definition north_east : embedding := pad [35 # 37; 12 # 37]%Q.
Definition south_east : embedding := pad [12 # 13; -5 # 13]%Q.
Definition north : embedding := pad [0; 1]%Q.

Definition not_art_analysis : analysis :=
  {| label := "A cat"; an_description := "A cat on a sofa";
     isArtwork := false; an_confidence := Fin (9 # 10) |}.

(** Three known images: two photographs of the same painting, and a
    photograph of a cat. *)
Definition test_services : Services :=
  fake_services
    [("lilies_1.jpg", east); ("lilies_2.jpg", north_east); ("cat.jpg", north)]%string
    [("lilies_1.jpg", sample_analysis); ("lilies_2.jpg", sample_analysis);
     ("cat.jpg", not_art_analysis)]%string.

Definition embedded_artwork (i : Z) (m : option Z) (v : embedding) : artwork :=
  {| art_id := i; museum_id := m; title := "Untitled"; artist := None;
     description_json := None; image_url := None; art_embedding := Some v;
     art_created_at := Some 0; art_updated_at := Some 0;
     is_verified := Some false; source := Some "ai_generated"%string;
     confidence_score := None |}.

(** Two unaffiliated artworks, each within 0.15 of [east] and farther than
    0.15 from each other. *)
Definition two_neighbours_db : db :=
  {| museums := [];
     artworks := [embedded_artwork 1 None south_east;
                  embedded_artwork 2 None north_east];
     user_scans := [];
     museums_id_seq := 1; artworks_id_seq := 3; user_scans_id_seq := 1 |}.

Definition scan_of (img : image) (lat lon : Q) : scan_request :=
  {| req_image := img; req_image_url := Some ("https://img/" ++ img)%string;
     req_lat := lat; req_lon := lon; req_user := "anonymous" |}.

Definition starry_night : Frontend.Artwork :=
  {| Frontend.id := 1; Frontend.title := "The Starry Night";
     Frontend.artist := "Vincent van Gogh";
     Frontend.description :=
       Frontend.DescObject (Some "A famous post-impressionist painting"%string)
                           (Some "Post-Impressionism"%string);
     Frontend.image_url := Some "https://img/starry.jpg"%string;
     Frontend.is_verified := Some true;
     Frontend.source := Some "museum_api"%string;
     Frontend.confidence_score := None; Frontend.year := None;
     Frontend.similarity := Some (95 # 100)%Q; Frontend.confidence := None |}.

Definition unknown_canvas : Frontend.Artwork :=
  {| Frontend.id := 7; Frontend.title := "Untitled";
     Frontend.artist := "Unknown";
     Frontend.description := Frontend.DescString "An abstract canvas";
     Frontend.image_url := None;
     Frontend.is_verified := None;
     Frontend.source := Some "ai_generated"%string;
     Frontend.confidence_score := Some (7 # 10)%Q; Frontend.year := None;
     Frontend.similarity := None; Frontend.confidence := Some "medium"%string |}.

Definition scan_result (st : Frontend.Status) (a : Frontend.Artwork)
    : Frontend.ScanResult :=
  {| Frontend.status := st; Frontend.artwork := Some a;
     Frontend.analysis := None; Frontend.message := None;
     Frontend.ai_generated := false; Frontend.badge := None;
     Frontend.cataloged := None |}.

(** A museum with a 200 m geofence and one artwork of its own. *)
Definition geofence_db : db :=
  {| museums := [sample_museum];
     artworks := [embedded_artwork 1 (Some 1) east];
     user_scans := [];
     museums_id_seq := 2; artworks_id_seq := 2; user_scans_id_seq := 1 |}.

(** The latitude [meters] north of the sample museum, on its meridian. *)
Definition north_of_museum (meters : Z) : Q :=
  ((407794 # 10000) + inject_Z meters / 111195)%Q.

Definition museum_lon : Q := (-739631 # 10000)%Q.

(** A store that holds one unrelated artwork. *)
Definition unrelated_db : db :=
  {| museums := []; artworks := [embedded_artwork 1 None north];
     user_scans := [];
     museums_id_seq := 1; artworks_id_seq := 2; user_scans_id_seq := 1 |}.

(** Both scans pass the double check before either inserts: the second
    insert meets the conflict and re-queries. *)
Definition racing_schedule : list worker_id :=
  [W1; W1; W1; W1; W1; W2; W2; W2; W2; W2; W1; W2; W2; W2; W1; W1; W1; W2; W2].

(** A scan that names an artwork that does not exist. *)
Definition dangling_scan : statement :=
  InsertUserScan 20 "anonymous" (Some 99) None.

(** The sample store with the museums sequence set back onto an id in
    use. *)
Definition stale_sequence_db : db :=
  {| museums := museums sample_db; artworks := artworks sample_db;
     user_scans := user_scans sample_db;
     museums_id_seq := 1; artworks_id_seq := 3; user_scans_id_seq := 3 |}.

(** A scan screen at rest, with both permissions granted. *)
Definition idle_screen : Screens.screen_state :=
  {| Screens.locationPermission := Some true; Screens.isScanning := false;
     Screens.result := None; Screens.showResult := false |}.

(** A scan whose every step succeeds, answered with a community entry. *)
Definition ready_env : Screens.scan_env :=
  {| Screens.camera_ready := true; Screens.permission := Some true;
     Screens.photo := Screens.Resolved (Some "file:///cache/photo.jpg"%string);
     Screens.type_error := "Cannot read property 'uri' of undefined";
     Screens.position := Screens.Resolved ((407794 # 10000)%Q, museum_lon);
     Screens.scan_response :=
       Screens.Resolved
         {| Screens.ok := true; Screens.statusText := "OK";
            Screens.json :=
              Screens.Resolved
                (scan_result Frontend.community_result unknown_canvas) |} |}.

(** The same scan, answered with a server error. *)
Definition failing_env : Screens.scan_env :=
  {| Screens.camera_ready := true; Screens.permission := Some true;
     Screens.photo := Screens.photo ready_env;
     Screens.type_error := Screens.type_error ready_env;
     Screens.position := Screens.position ready_env;
     Screens.scan_response :=
       Screens.Resolved
         {| Screens.ok := false; Screens.statusText := "Internal Server Error";
            Screens.json := Screens.Rejected Screens.ThrownValue |} |}.

(** The scan screen showing a result. *)
Definition showing (r : Frontend.ScanResult) : Screens.screen_state :=
  {| Screens.locationPermission := Some true; Screens.isScanning := false;
     Screens.result := Some r; Screens.showResult := true |}.

(** A "not art" answer that still carries an artwork. *)
Definition not_art_with_artwork : Frontend.ScanResult :=
  {| Frontend.status := Frontend.not_art; Frontend.artwork := Some unknown_canvas;
     Frontend.analysis := None;
     Frontend.message := Some "This does not look like an artwork."%string;
     Frontend.ai_generated := false; Frontend.badge := None;
     Frontend.cataloged := None |}.

(** An answer with a status but no artwork. *)
Definition bare_result (st : Frontend.Status) : Frontend.ScanResult :=
  {| Frontend.status := st; Frontend.artwork := None;
     Frontend.analysis := None; Frontend.message := None;
     Frontend.ai_generated := true; Frontend.badge := None;
     Frontend.cataloged := None |}.

(** An artwork whose description is longer than the fact box shows. *)
Definition long_description : string :=
  "The Starry Night was painted in June 1889 and shows the view from the east-facing window of the asylum room at Saint-Remy-de-Provence, just before sunrise, with an imaginary village added.".

Definition verbose_canvas : Frontend.Artwork :=
  {| Frontend.id := 8; Frontend.title := "The Starry Night";
     Frontend.artist := "Vincent van Gogh";
     Frontend.description := Frontend.DescString long_description;
     Frontend.image_url := Some "placeholder_url"%string;
     Frontend.is_verified := Some false;
     Frontend.source := Some "ai_generated"%string;
     Frontend.confidence_score := None; Frontend.year := Some 1889;
     Frontend.similarity := Some (0 # 1)%Q; Frontend.confidence := None |}.

(** A store of the base schema, before the migration, with one artwork. *)
Definition legacy_db0 : db0 :=
  {| museums0 := [sample_museum];
     artworks0 :=
       [ {| art0_id := 1; art0_museum_id := Some 1;
            art0_title := "The Harvesters"; art0_artist := Some "Pieter Bruegel"%string;
            art0_description_json := None; art0_image_url := None;
            art0_embedding := None;
            art0_created_at := Some 0; art0_updated_at := Some 0 |} ];
     user_scans0 := [];
     museums0_id_seq := 2; artworks0_id_seq := 2; user_scans0_id_seq := 1 |}.

(* end of sample data *)

(* ===================================================================== *)
(** * Properties of the schema *)
(* ===================================================================== *)

Lemma require_ok b e : require b e = Ok tt ↔ b = true.
Proof. destruct b; simpl; split; congruence. Qed.

Lemma artwork_row_checks_ok d r :
  artwork_row_checks d r = Ok tt ↔
  embedding_dim_ok r = true ∧
  check_ok (check_source_values r) = true ∧
  check_ok (check_confidence_range r) = true ∧
  museum_exists d (museum_id r) = true.
Proof.
  unfold artwork_row_checks.
  destruct (embedding_dim_ok r), (check_ok (check_source_values r)),
    (check_ok (check_confidence_range r)), (museum_exists d (museum_id r));
    simpl; split; intros; destruct_and?; try congruence; auto.
Qed.

Lemma artwork_row_checks_dec d r :
  artwork_row_checks d r = Ok tt ∨ ∃ e, artwork_row_checks d r = Err e.
Proof. destruct (artwork_row_checks d r) as [[]|e]; eauto. Qed.

Lemma check_confidence_range_spec r :
  check_ok (check_confidence_range r) = true ↔ confidence_in_range r.
Proof.
  unfold check_confidence_range, confidence_in_range.
  destruct (confidence_score r) as [c|]; simpl.
  - split.
    + intros Hc c' [= <-].
      destruct c as [|q| |]; simpl in *; try discriminate.
      destruct (Qle_bool 0 q) eqn:H0, (Qle_bool q 1) eqn:H1; try discriminate.
      split; by apply Qle_bool_iff.
    + intros Hc. specialize (Hc c eq_refl).
      destruct c as [|q| |]; simpl in *; try done.
      destruct Hc as [H0 H1].
      apply Qle_bool_iff in H0, H1. by rewrite H0, H1.
  - split; [by intros _ c|done].
Qed.

Lemma check_source_values_spec r :
  check_ok (check_source_values r) = true ↔ source_null_or_tier r.
Proof.
  unfold check_source_values, source_null_or_tier, sql_in.
  destruct (source r) as [s|]; simpl.
  - case_bool_decide; simpl; split; try done.
    + by intros _ s' [= <-].
    + intros Hs. by specialize (Hs s eq_refl).
  - split; [by intros _ s|done].
Qed.

(** A row that a statement adds or changes has passed the row checks. *)
Lemma exec_artworks st d d' r :
  exec st d = Ok d' → r ∈ artworks d' →
  r ∈ artworks d ∨ (r ∈ written st d ∧ artwork_row_checks d r = Ok tt).
Proof.
  destruct st as [now i|i s|i|now name loc radius|m|now user art img]; simpl.
  - unfold insert_artwork.
    destruct (require _ _) as [[]|]; simpl; [|done].
    destruct (artwork_row_checks_dec d (new_artwork_row now i d)) as [Hc|[e Hc]];
      rewrite Hc; simpl; [|done].
    intros [= <-]; simpl. rewrite elem_of_app, list_elem_of_singleton.
    intros [?| ->]; [by left|right]. split; [set_solver|done].
  - unfold update_artwork.
    destruct (check_all d _) as [[]|] eqn:Hall; simpl; [|done].
    intros [= <-]; simpl. rewrite list_elem_of_fmap.
    intros (r0 & -> & Hr0). unfold update_row. case_bool_decide as Hid; [|by left].
    right.
    assert (Hin : apply_set s r0 ∈ apply_set s <$> filter (λ r, art_id r = i) (artworks d)).
    { apply list_elem_of_fmap_2, list_elem_of_filter. done. }
    split; [done|]. revert Hall Hin. unfold check_all.
    generalize (apply_set s <$> filter (λ r, art_id r = i) (artworks d)).
    intros l. induction l as [|x l IH]; simpl; [set_solver|].
    destruct (artwork_row_checks_dec d x) as [Hx|[e Hx]]; rewrite Hx; simpl; [|done].
    intros Hl. rewrite elem_of_cons. intros [-> |?]; auto.
  - intros [= <-]; simpl. rewrite list_elem_of_filter. intros [_ ?]. by left.
  - unfold insert_museum. destruct (require _ _) as [[]|]; simpl; [|done].
    intros [= <-]; simpl. by left.
  - intros [= <-]; simpl. rewrite list_elem_of_filter. intros [_ ?]. by left.
  - unfold insert_user_scan.
    destruct (require (bool_decide _) _) as [[]|]; simpl; [|done].
    destruct (require (artwork_exists _ _) _) as [[]|]; simpl; [|done].
    intros [= <-]; simpl. by left.
Qed.

(** A statement that writes a row failing the row checks raises an error. *)
Lemma exec_written_fails st d r :
  r ∈ written st d → artwork_row_checks d r ≠ Ok tt → ∃ e, exec st d = Err e.
Proof.
  destruct st as [now i|i s|i|now name loc radius|m|now user art img]; simpl;
    try by intros ?%elem_of_nil.
  - rewrite list_elem_of_singleton. intros -> Hbad. unfold insert_artwork.
    destruct (require _ _) as [[]|]; simpl; [|eauto].
    destruct (artwork_row_checks_dec d (new_artwork_row now i d)) as [Hc|[e Hc]];
      [done|]. rewrite Hc. simpl. eauto.
  - unfold update_artwork, check_all.
    generalize (apply_set s <$> filter (λ r, art_id r = i) (artworks d)).
    intros l Hin Hbad.
    assert (∃ e, foldr (λ r acc, artwork_row_checks d r;; acc) (Ok tt) l = Err e)
      as [e ->]; [|simpl; eauto].
    induction l as [|x l IH]; [set_solver|]. simpl.
    destruct (artwork_row_checks_dec d x) as [Hx|[e Hx]]; rewrite Hx; simpl; [|eauto].
    apply elem_of_cons in Hin as [-> |Hin]; [done|auto].
Qed.

Lemma update_existing_add_columns r :
  update_existing (add_columns r) = add_columns r.
Proof. reflexivity. Qed.

(** On the base schema the migration succeeds, and leaves every existing
    row unverified, AI-generated and without a confidence. *)
Lemma migration_add_verification_ok d0 :
  ∃ d1, migration_add_verification d0 = Ok d1 ∧
        artworks d1 = add_columns <$> artworks0 d0 ∧
        museums d1 = museums0 d0 ∧ user_scans d1 = user_scans0 d0.
Proof.
  unfold migration_add_verification, add_constraint.
  assert (Hrows : update_existing <$> (add_columns <$> artworks0 d0)
                  = add_columns <$> artworks0 d0).
  { rewrite <- list_fmap_compose. apply list_fmap_ext. intros i x _. reflexivity. }
  rewrite Hrows.
  assert (Hsrc : forallb (λ r, check_ok (check_source_values r))
                   (add_columns <$> artworks0 d0) = true).
  { apply forallb_forall. intros r Hr. apply list_elem_of_In, list_elem_of_fmap in Hr.
    by destruct Hr as (r0 & -> & _). }
  assert (Hconf : forallb (λ r, check_ok (check_confidence_range r))
                    (add_columns <$> artworks0 d0) = true).
  { apply forallb_forall. intros r Hr. apply list_elem_of_In, list_elem_of_fmap in Hr.
    by destruct Hr as (r0 & -> & _). }
  rewrite Hsrc, Hconf. simpl. eauto.
Qed.

Lemma migrated_rows d0 d1 r :
  migration_add_verification d0 = Ok d1 → r ∈ artworks d1 →
  is_verified r = Some false ∧ source r = Some "ai_generated"%string ∧
  confidence_score r = None.
Proof.
  destruct (migration_add_verification_ok d0) as (d & Hd & Hrows & _).
  rewrite Hd. intros [= <-]. rewrite Hrows, list_elem_of_fmap.
  by intros (r0 & -> & _).
Qed.

(** A property of rows that the row checks enforce holds in every state
    that statements lead to. *)
Lemma exec_or_keep_invariant (P : artwork → Prop) st d :
  (∀ d r, artwork_row_checks d r = Ok tt → P r) →
  Forall P (artworks d) → Forall P (artworks (exec_or_keep st d)).
Proof.
  intros Hchk HP. unfold exec_or_keep.
  destruct (exec st d) as [d'|] eqn:Hex; [|done].
  apply Forall_forall. intros r Hr.
  destruct (exec_artworks _ _ _ _ Hex Hr) as [Hold|[_ Hnew]]; [|eauto].
  by eapply Forall_forall in HP.
Qed.

Lemma run_invariant (P : artwork → Prop) sts d :
  (∀ d r, artwork_row_checks d r = Ok tt → P r) →
  Forall P (artworks d) → Forall P (artworks (run sts d)).
Proof.
  intros Hchk. revert d. induction sts as [|st sts IH]; intros d HP; [done|].
  simpl. apply IH. by apply exec_or_keep_invariant.
Qed.

Lemma row_checks_confidence d r :
  artwork_row_checks d r = Ok tt → confidence_in_range r.
Proof.
  intros (_ & _ & Hc & _)%artwork_row_checks_ok.
  by apply check_confidence_range_spec.
Qed.

Lemma row_checks_source d r :
  artwork_row_checks d r = Ok tt → source_null_or_tier r.
Proof.
  intros (_ & Hs & _ & _)%artwork_row_checks_ok.
  by apply check_source_values_spec.
Qed.

Lemma set_null_fields ids s :
  scan_id (set_null ids s) = scan_id s ∧
  user_id (set_null ids s) = user_id s ∧
  scan_image_url (set_null ids s) = scan_image_url s ∧
  timestamp (set_null ids s) = timestamp s ∧
  artwork_id (set_null ids s) =
    match artwork_id s with
    | Some a => if bool_decide (a ∈ ids) then None else Some a
    | None => None
    end.
Proof.
  unfold set_null. destruct (artwork_id s) as [a|] eqn:Ha; [|by rewrite Ha].
  case_bool_decide; simpl; by rewrite ?Ha.
Qed.

(** ** Well-formed stores *)

Lemma Forall_lt_succ {A} (f : A → Z) (l : list A) (seq : Z) :
  Forall (λ x, f x < seq) l → Forall (λ x, f x < seq + 1) l.
Proof. intros Hl. eapply Forall_impl; [done|]. simpl. intros; lia. Qed.

Lemma Forall_lt_snoc {A} (f : A → Z) (l : list A) (x : A) :
  Forall (λ y, f y < f x) l → Forall (λ y, f y < f x + 1) (l ++ [x]).
Proof.
  intros Hl. apply Forall_app. split; [by apply Forall_lt_succ|].
  apply Forall_singleton. lia.
Qed.

(** The sequences stay ahead of the ids under every statement, so every
    store reached from the empty one is well formed. *)
Lemma exec_or_keep_wf st d : db_wf d → db_wf (exec_or_keep st d).
Proof.
  intros (Hm & Ha & Hs). unfold exec_or_keep.
  destruct st as [now i|i s|i|now name loc radius|m|now user art img]; simpl.
  - unfold insert_artwork.
    destruct (require _ _) as [[]|]; simpl; [|done].
    destruct (artwork_row_checks d _) as [[]|]; simpl; [|done].
    split; [done|]. split; [|done].
    by apply (Forall_lt_snoc art_id (artworks d) (new_artwork_row now i d)).
  - unfold update_artwork. destruct (check_all d _) as [[]|]; simpl; [|done].
    split; [done|]. split; [|done].
    apply Forall_fmap. eapply Forall_impl; [done|]. intros r Hr. simpl.
    unfold update_row. by case_bool_decide.
  - split; [done|]. split.
    + apply Forall_forall. intros r [_ Hr]%list_elem_of_filter.
      by eapply Forall_forall in Ha.
    + apply Forall_fmap. eapply Forall_impl; [done|]. intros x Hx. simpl.
      by destruct (set_null_fields [i] x) as (-> & _).
  - unfold insert_museum. destruct (require _ _) as [[]|]; simpl; [|done].
    split; [|done].
    by apply (Forall_lt_snoc mus_id (museums d)
                {| mus_id := museums_id_seq d; mus_name := name; location := loc;
                   geofence_radius_meters := default 100 radius;
                   mus_created_at := Some now; mus_updated_at := Some now |}).
  - split; [|split].
    + apply Forall_forall. intros x [_ Hx]%list_elem_of_filter.
      by eapply Forall_forall in Hm.
    + apply Forall_forall. intros r [_ Hr]%list_elem_of_filter.
      by eapply Forall_forall in Ha.
    + apply Forall_fmap. eapply Forall_impl; [done|]. intros x Hx. simpl.
      by destruct (set_null_fields
                     (art_id <$> filter (λ r, museum_id r = Some m) (artworks d)) x)
        as (-> & _).
  - unfold insert_user_scan.
    destruct (require (bool_decide _) _) as [[]|]; simpl; [|done].
    destruct (require (artwork_exists _ _) _) as [[]|]; simpl; [|done].
    split; [done|]. split; [done|].
    by apply (Forall_lt_snoc scan_id (user_scans d)
                {| scan_id := user_scans_id_seq d; user_id := user;
                   artwork_id := art; scan_image_url := img;
                   timestamp := Some now |}).
Qed.

Lemma run_wf sts d : db_wf d → db_wf (run sts d).
Proof.
  revert d. induction sts as [|st sts IH]; intros d Hd; [done|].
  simpl. by apply IH, exec_or_keep_wf.
Qed.

Lemma empty_db_wf : db_wf empty_db.
Proof. repeat split; apply Forall_nil_2. Qed.

(** ** The confidence score *)



(** ** The source tier *)




(** ** Verification and source *)

(** C5, as stated, fails: no constraint of the schema relates [is_verified]
    to [source], so a verified row with source community is accepted. *)
Lemma verified_source_counterexample :
  migration_add_verification empty_db0 = Ok empty_db ∧
  ∃ d r, exec (InsertArtwork 10 (verified_insert "community")) empty_db = Ok d ∧
         artworks d = [r] ∧ is_verified r = Some true ∧
         source r = Some "community"%string ∧
         ¬ verified_by_museum_or_admin r.
Proof.
  split; [reflexivity|].
  eexists _, _. split; [reflexivity|]. split; [reflexivity|].
  split; [reflexivity|]. split; [reflexivity|].
  intros Hv. by destruct (Hv eq_refl).
Qed.

Lemma exec_or_keep_verified st d :
  Forall verified_by_museum_or_admin (written st d) →
  Forall verified_by_museum_or_admin (artworks d) →
  Forall verified_by_museum_or_admin (artworks (exec_or_keep st d)).
Proof.
  intros Hw Hd. unfold exec_or_keep.
  destruct (exec st d) as [d'|] eqn:Hex; [|done].
  apply Forall_forall. intros r Hr.
  destruct (exec_artworks _ _ _ _ Hex Hr) as [Hold|[Hnew _]].
  - by eapply Forall_forall in Hd.
  - by eapply Forall_forall in Hw.
Qed.

(** C5, amended.  The implication "is_verified = true implies source is
    museum_api or admin" is a convention of the writers, which the schema
    does not enforce: it holds after the migration, it holds in every state
    reached by statements that each write only rows satisfying it, and
    every INSERT that leaves [is_verified] to its DEFAULT (false) writes
    such a row. *)
Theorem verified_source_convention (d0 : db0) (d1 : db) (sts : list statement) :
  migration_add_verification d0 = Ok d1 →
  Forall verified_by_museum_or_admin (artworks d1) ∧
  (respects_verified sts d1 →
   Forall verified_by_museum_or_admin (artworks (run sts d1))) ∧
  (∀ now i d, ins_is_verified i = DEFAULT →
              Forall verified_by_museum_or_admin (written (InsertArtwork now i) d)).
Proof.
  intros Hmig.
  assert (H1 : Forall verified_by_museum_or_admin (artworks d1)).
  { apply Forall_forall. intros r Hr Hv.
    destruct (migrated_rows _ _ _ Hmig Hr) as (Hf & _). congruence. }
  split; [done|]. split.
  - clear Hmig. revert d1 H1. induction sts as [|st sts IH]; intros d Hd Hres; [done|].
    destruct Hres as [Hw Hres]. simpl. apply IH; [|done].
    by apply exec_or_keep_verified.
  - intros now i d Hdef. simpl. apply Forall_singleton. intros Hv. simpl in Hv.
    rewrite Hdef in Hv. discriminate.
Qed.

Lemma verified_source_convention_witness :
  let sts := [InsertArtwork 10 (verified_insert "museum_api");
              InsertArtwork 11 (sample_insert None)] in
  Forall verified_by_museum_or_admin (artworks empty_db) ∧
  Forall verified_by_museum_or_admin (artworks (run sts empty_db)) ∧
  Forall verified_by_museum_or_admin
    (written (InsertArtwork 12 (sample_insert None)) (run sts empty_db)).
Proof.
  intros sts.
  destruct (verified_source_convention empty_db0 empty_db sts eq_refl)
    as (Hinit & Hrun & Hdef).
  split; [exact Hinit|]. split; [|exact (Hdef 12 (sample_insert None) _ eq_refl)].
  apply Hrun. simpl. split; [|split; [|exact I]].
  - apply Forall_singleton. intros _. by left.
  - apply Forall_singleton. intros Hv. discriminate Hv.
Defined.

(** ** Referential actions *)

Lemma set_null_unreferenced ids s :
  (∀ a, artwork_id s = Some a → a ∉ ids) → set_null ids s = s.
Proof.
  intros Hs. unfold set_null. destruct (artwork_id s) as [a|]; [|done].
  by rewrite bool_decide_eq_false_2 by auto.
Qed.

(** C9.  Deleting a museum deletes exactly the artworks that reference it:
    the remaining artworks are the rows with another or a NULL [museum_id],
    unchanged and in their order.  Deleting an artwork (directly, or
    through that cascade) deletes no [user_scans] row: each scan keeps its
    id, user, image and timestamp, and its [artwork_id] becomes NULL when
    it referenced a deleted artwork and stays as it was otherwise. *)
Theorem delete_referential_actions (d : db) :
  (∀ m,
      artworks (delete_museum m d) = filter (λ r, museum_id r ≠ Some m) (artworks d) ∧
      (∀ r, r ∈ artworks d → museum_id r = Some m → r ∉ artworks (delete_museum m d)) ∧
      (∀ r, r ∈ artworks d → museum_id r = None → r ∈ artworks (delete_museum m d)) ∧
      filter (λ r, museum_id r = None) (artworks (delete_museum m d))
        = filter (λ r, museum_id r = None) (artworks d) ∧
      (∀ x, x ∈ museums (delete_museum m d) ↔ x ∈ museums d ∧ mus_id x ≠ m) ∧
      length (user_scans (delete_museum m d)) = length (user_scans d) ∧
      (∀ i s, user_scans d !! i = Some s →
              ∃ s', user_scans (delete_museum m d) !! i = Some s' ∧
                    scan_id s' = scan_id s ∧ user_id s' = user_id s ∧
                    scan_image_url s' = scan_image_url s ∧
                    timestamp s' = timestamp s ∧
                    artwork_id s' =
                      match artwork_id s with
                      | Some a =>
                          if bool_decide
                               (a ∈ art_id <$> filter (λ r, museum_id r = Some m)
                                                      (artworks d))
                          then None else Some a
                      | None => None
                      end)) ∧
  (∀ a,
      artworks (delete_artwork a d) = filter (λ r, art_id r ≠ a) (artworks d) ∧
      museums (delete_artwork a d) = museums d ∧
      length (user_scans (delete_artwork a d)) = length (user_scans d) ∧
      (∀ i s, user_scans d !! i = Some s →
              ∃ s', user_scans (delete_artwork a d) !! i = Some s' ∧
                    scan_id s' = scan_id s ∧ user_id s' = user_id s ∧
                    scan_image_url s' = scan_image_url s ∧
                    timestamp s' = timestamp s ∧
                    artwork_id s' = (if bool_decide (artwork_id s = Some a)
                                     then None else artwork_id s))).
Proof.
  split.
  - intros m. simpl. split; [done|]. split; [|split; [|split; [|split; [|split]]]].
    + intros r _ Hm. rewrite list_elem_of_filter. tauto.
    + intros r Hr Hm. rewrite list_elem_of_filter. split; [congruence|done].
    + rewrite list_filter_filter. apply list_filter_iff. intros r.
      split; [tauto|]. intros Hr. split; [done|congruence].
    + intros x. rewrite list_elem_of_filter. tauto.
    + by rewrite length_fmap.
    + intros i s Hs. eexists. rewrite list_lookup_fmap, Hs. split; [done|].
      apply set_null_fields.
  - intros a. simpl. split; [done|]. split; [done|]. split; [by rewrite length_fmap|].
    intros i s Hs. exists (set_null [a] s).
    rewrite list_lookup_fmap, Hs. split; [done|].
    destruct (set_null_fields [a] s) as (-> & -> & -> & -> & ->).
    repeat split. destruct (artwork_id s) as [x|]; [|done].
    case_bool_decide as Hin; case_bool_decide as Heq; try done.
    + exfalso. apply Heq. f_equal. by apply list_elem_of_singleton in Hin.
    + exfalso. apply Hin. injection Heq as ->. by apply list_elem_of_singleton.
Qed.

Lemma delete_referential_actions_witness :
  artworks (delete_museum 1 sample_db) = [sample_artwork 2 None] ∧
  (sample_artwork 1 (Some 1) ∉ artworks (delete_museum 1 sample_db)) ∧
  (sample_artwork 2 None ∈ artworks (delete_museum 1 sample_db)) ∧
  (∃ s', user_scans (delete_museum 1 sample_db) !! 0%nat = Some s' ∧
         scan_id s' = 1 ∧ artwork_id s' = None) ∧
  (∃ s', user_scans (delete_artwork 2 sample_db) !! 1%nat = Some s' ∧
         scan_id s' = 2 ∧ user_id s' = "anonymous"%string ∧
         artwork_id s' = None) ∧
  (∃ s', user_scans (delete_artwork 2 sample_db) !! 0%nat = Some s' ∧
         scan_id s' = 1 ∧ artwork_id s' = Some 1).
Proof.
  destruct (delete_referential_actions sample_db) as [Hmus Hart].
  destruct (Hmus 1) as (Hrows & Hgone & Hkept & _ & _ & _ & Hscans).
  destruct (Hart 2) as (_ & _ & _ & Hscans').
  split; [rewrite Hrows; reflexivity|].
  split.
  { apply (Hgone (sample_artwork 1 (Some 1))); [|reflexivity].
    apply elem_of_cons. by left. }
  split.
  { apply (Hkept (sample_artwork 2 None)); [|reflexivity].
    apply elem_of_cons. right. apply elem_of_cons. by left. }
  split.
  { destruct (Hscans 0%nat (sample_scan 1 (Some 1)) eq_refl)
      as (s' & Hs' & Hid & _ & _ & _ & Href).
    exists s'. split; [exact Hs'|]. split; [exact Hid|]. exact Href. }
  split.
  { destruct (Hscans' 1%nat (sample_scan 2 (Some 2)) eq_refl)
      as (s' & Hs' & Hid & Hu & _ & _ & Href).
    exists s'. split; [exact Hs'|]. split; [exact Hid|]. split; [exact Hu|].
    exact Href. }
  destruct (Hscans' 0%nat (sample_scan 1 (Some 1)) eq_refl)
    as (s' & Hs' & Hid & _ & _ & _ & Href).
  exists s'. split; [exact Hs'|]. split; [exact Hid|]. exact Href.
Defined.

(* ===================================================================== *)
(** * Properties of the result UI *)
(* ===================================================================== *)

Section ResultUI.
Import Frontend.

Lemma ResultCard_offers_report visible a sim h :
  offers_report (ResultCard visible (Some a) sim h)
  = match h with Some _ => negb (isVerified a) | None => false end.
Proof.
  unfold ResultCard, offers_report, when.
  rewrite !existsb_app. simpl.
  destruct (image_url a) as [u|], (description_style a) as [st|], sim as [q|],
    h as [h|]; simpl;
    repeat match goal with
           | |- context [if ?b then _ else _] => destruct b; simpl
           end; reflexivity.
Qed.

Lemma ResultCard_badges visible a sim h :
  badges (ResultCard visible (Some a) sim h)
  = [Badge (if isVerified a then OFFICIAL_COLLECTION else AI_ANALYSIS)].
Proof.
  unfold ResultCard, badges, when.
  destruct (image_url a) as [u|], (description_style a) as [st|], sim as [q|],
    h as [h|];
    repeat match goal with
           | |- context [truthy_string ?x] => destruct (truthy_string x)
           | |- context [truthy_number ?x] => destruct (truthy_number x)
           | |- context [bool_decide ?x] => destruct (bool_decide x)
           end;
    destruct (isVerified a); reflexivity.
Qed.

(** C10.  In [ResultCard], an artwork without [is_verified] is unverified
    ([isVerified] is false); the report link is rendered exactly when the
    artwork is not verified and a report handler was passed; and the scan
    screen, which passes the handler exactly for artworks that are not
    verified, offers the report action exactly when the artwork is not
    verified: for every unverified artwork, for no verified one. *)
Theorem report_issue_offered :
  (∀ a, is_verified a = None → isVerified a = false) ∧
  (∀ visible a sim h,
      offers_report (ResultCard visible (Some a) sim (Some h)) = negb (isVerified a) ∧
      offers_report (ResultCard visible (Some a) sim None) = false) ∧
  (∀ visible a sim h,
      is_verified a = Some true →
      offers_report (ResultCard visible (Some a) sim h) = false) ∧
  (∀ showResult r a,
      artwork r = Some a →
      offers_report (scan_index_ResultCard showResult (Some r))
      = negb (isVerified a)).
Proof.
  split; [|split; [|split]].
  - intros a Ha. unfold isVerified. by rewrite Ha.
  - intros visible a sim h. by rewrite !ResultCard_offers_report.
  - intros visible a sim h Ha. rewrite ResultCard_offers_report.
    unfold isVerified. rewrite Ha. by destruct h.
  - intros showResult r a Hr. unfold scan_index_ResultCard. rewrite Hr.
    rewrite ResultCard_offers_report. unfold truthy_bool, isVerified.
    by destruct (default false (is_verified a)).
Qed.

Lemma report_issue_offered_witness :
  isVerified unknown_canvas = false ∧
  offers_report (ResultCard true (Some starry_night) None (Some handleReportIssue))
    = false ∧
  offers_report (scan_index_ResultCard true
                   (Some (scan_result community_result unknown_canvas))) = true ∧
  offers_report (scan_index_ResultCard true
                   (Some (scan_result verified_result starry_night))) = false.
Proof.
  destruct report_issue_offered as (Habsent & _ & Hverified & Hscreen).
  split; [exact (Habsent unknown_canvas eq_refl)|].
  split; [exact (Hverified true starry_night None (Some handleReportIssue) eq_refl)|].
  split.
  - exact (Hscreen true (scan_result community_result unknown_canvas)
             unknown_canvas eq_refl).
  - exact (Hscreen true (scan_result verified_result starry_night)
             starry_night eq_refl).
Defined.

End ResultUI.

(* ===================================================================== *)
(** * Properties of the Vector Match Engine *)
(* ===================================================================== *)

Section MatchEngine.
Context `{Services}.

Lemma negb_Qle_bool x y : negb (Qle_bool y x) = true ↔ (x < y)%Q.
Proof.
  rewrite negb_true_iff. split.
  - intros Hf. apply Qnot_le_lt. intros Hle. apply Qle_bool_iff in Hle. congruence.
  - intros Hlt. destruct (Qle_bool y x) eqn:Hle; [|done].
    apply Qle_bool_iff in Hle. by apply Qlt_not_le in Hlt.
Qed.

Lemma candidate_spec e scope a :
  candidate e scope a = true ↔
  in_scope scope a = true ∧
  ∃ v, art_embedding a = Some v ∧ (cosine_distance e v < threshold)%Q.
Proof.
  unfold candidate, distance_to. rewrite andb_true_iff.
  destruct (art_embedding a) as [v|]; simpl.
  - rewrite negb_Qle_bool. split.
    + intros [? ?]. eauto.
    + intros [? (v' & [= <-] & ?)]. done.
  - split; [intros [_ ?]; done|]. by intros [_ (v & ? & _)].
Qed.

Lemma candidate_distance e scope a :
  candidate e scope a = true → ∃ dist, distance_to e a = Some dist.
Proof.
  intros (_ & v & Hv & _)%candidate_spec. unfold distance_to. rewrite Hv. simpl. eauto.
Qed.

Lemma beats_le e a b x y :
  distance_to e a = Some x → distance_to e b = Some y →
  if beats e a b then (x <= y)%Q else (y <= x)%Q.
Proof.
  intros Ha Hb. unfold beats. rewrite Ha, Hb.
  destruct (Qle_bool y x) eqn:Hle; simpl.
  - destruct (Qeq_bool x y) eqn:Heq; simpl.
    + apply Qeq_bool_iff in Heq.
      destruct (preferred a && negb (preferred b)).
      * rewrite Heq. apply Qle_refl.
      * by apply Qle_bool_iff.
    + by apply Qle_bool_iff.
  - apply Qlt_le_weak, negb_Qle_bool. by rewrite Hle.
Qed.

Lemma nearest_foldl e l best :
  foldl (pick e) best l = None ↔ best = None ∧ l = [].
Proof.
  revert best. induction l as [|a l IH]; intros best; simpl; [tauto|].
  rewrite IH. split; [|by intros [_ ?]].
  intros [Hp _]. destruct best as [b|]; simpl in Hp; [|done].
  by destruct (beats e a b).
Qed.

Lemma nearest_None e l : nearest e l = None ↔ l = [].
Proof. unfold nearest. rewrite nearest_foldl. tauto. Qed.

(** The winner is one of the rows, and no row is nearer. *)
Lemma nearest_foldl_min e l best w :
  (∀ a, a ∈ l → is_Some (distance_to e a)) →
  (∀ b, best = Some b → is_Some (distance_to e b)) →
  foldl (pick e) best l = Some w →
  (best = Some w ∨ w ∈ l) ∧
  ∃ dw, distance_to e w = Some dw ∧
        (∀ b db, best = Some b → distance_to e b = Some db → (dw <= db)%Q) ∧
        (∀ a da, a ∈ l → distance_to e a = Some da → (dw <= da)%Q).
Proof.
  revert best. induction l as [|a l IH]; intros best Hl Hbest; simpl.
  - intros ->. split; [by left|]. destruct (Hbest w eq_refl) as [dw Hdw].
    exists dw. split; [done|]. split.
    + intros b db [= <-] Hdb. rewrite Hdw in Hdb. injection Hdb as <-. apply Qle_refl.
    + intros a da Ha. by apply elem_of_nil in Ha.
  - intros Hw.
    destruct (Hl a) as [da Hda]; [by left|].
    assert (Hstep : ∀ b, pick e best a = Some b → is_Some (distance_to e b)).
    { intros b. destruct best as [b0|]; simpl.
      - destruct (beats e a b0); intros [= <-]; eauto.
      - intros [= <-]; eauto. }
    destruct (IH (pick e best a)) as (Hin & dw & Hdw & Hle_best & Hle_l); auto.
    { intros x Hx. apply Hl. by right. }
    split.
    + destruct Hin as [Hin|Hin]; [|right; by right].
      destruct best as [b0|]; simpl in Hin.
      * destruct (beats e a b0); injection Hin as <-; [right|left]; [by left|done].
      * injection Hin as <-. right. by left.
    + exists dw. split; [done|]. split.
      * intros b db -> Hdb. simpl in Hle_best.
        pose proof (beats_le e a b da db Hda Hdb) as Hcmp.
        destruct (beats e a b).
        -- eapply Qle_trans; [by apply (Hle_best a da)|done].
        -- by apply (Hle_best b db).
      * intros x dx Hx Hdx. apply elem_of_cons in Hx as [Hx|Hx]; [|by eapply Hle_l].
        subst x. destruct best as [b|]; simpl in Hle_best.
        -- destruct (Hbest b eq_refl) as [db Hdb].
           pose proof (beats_le e a b dx db Hdx Hdb) as Hcmp.
           destruct (beats e a b).
           ++ by apply (Hle_best a dx).
           ++ eapply Qle_trans; [by apply (Hle_best b db)|done].
        -- by apply (Hle_best a dx).
Qed.

Lemma nearest_min e l w :
  (∀ a, a ∈ l → is_Some (distance_to e a)) →
  nearest e l = Some w →
  w ∈ l ∧ ∃ dw, distance_to e w = Some dw ∧
                ∀ a da, a ∈ l → distance_to e a = Some da → (dw <= da)%Q.
Proof.
  intros Hl Hw. unfold nearest in Hw.
  destruct (nearest_foldl_min e l None w Hl) as ([?|Hin] & dw & Hdw & _ & Hmin);
    [done|done|done|eauto].
Qed.

Lemma candidates_elem e scope d a :
  a ∈ List.filter (candidate e scope) (artworks d) ↔
  a ∈ artworks d ∧ candidate e scope a = true.
Proof. rewrite !list_elem_of_In. apply filter_In. Qed.

(** A match is a stored candidate, with its distance and its tier, and no
    candidate is nearer. *)
Lemma match_engine_Match e scope d t a dist :
  match_engine e scope d = Match t a dist →
  a ∈ artworks d ∧ candidate e scope a = true ∧
  distance_to e a = Some dist ∧ t = tier_of a ∧
  ∀ b db, b ∈ artworks d → candidate e scope b = true →
          distance_to e b = Some db → (dist <= db)%Q.
Proof.
  unfold match_engine.
  destruct (nearest e _) as [w|] eqn:Hw; [|done].
  apply nearest_min in Hw as (Hin & dw & Hdw & Hmin).
  2:{ intros x (_ & Hx)%candidates_elem. destruct (candidate_distance _ _ _ Hx). eauto. }
  rewrite Hdw. intros [= <- <- <-].
  apply candidates_elem in Hin as [Hin Hc].
  repeat split; try done.
  intros b db Hb Hcb Hdb. apply (Hmin b db); [|done]. by apply candidates_elem.
Qed.

Lemma match_engine_NoMatch e scope d :
  match_engine e scope d = NoMatch ↔
  ∀ a, a ∈ artworks d → candidate e scope a = false.
Proof.
  unfold match_engine. split.
  - destruct (nearest e _) as [w|] eqn:Hw.
    + assert (Hin : w ∈ List.filter (candidate e scope) (artworks d)).
      { apply nearest_min in Hw as [? _]; [done|].
        intros x (_ & Hx)%candidates_elem. destruct (candidate_distance _ _ _ Hx). eauto. }
      apply candidates_elem in Hin as [_ Hc].
      destruct (candidate_distance _ _ _ Hc) as [dw ->]. done.
    + apply nearest_None in Hw. intros _ a Ha.
      destruct (candidate e scope a) eqn:Hc; [|done].
      assert (a ∈ List.filter (candidate e scope) (artworks d)) as Hin
        by by apply candidates_elem.
      rewrite Hw in Hin. by apply elem_of_nil in Hin.
  - intros Hnone.
    assert (List.filter (candidate e scope) (artworks d) = []) as ->; [|done].
    destruct (List.filter _ _) as [|x l] eqn:Hl; [done|].
    assert (x ∈ List.filter (candidate e scope) (artworks d)) as Hin
      by (rewrite Hl; by left).
    apply candidates_elem in Hin as [Hin Hc]. rewrite Hnone in Hc; done.
Qed.

(** The engine reads only the artworks table. *)
Lemma match_engine_ext e scope d d' :
  artworks d = artworks d' → match_engine e scope d = match_engine e scope d'.
Proof. unfold match_engine. by intros ->. Qed.

(** A candidate in scope always yields a match. *)
Lemma match_engine_some e scope d a :
  a ∈ artworks d → candidate e scope a = true →
  ∃ t b dist, match_engine e scope d = Match t b dist.
Proof.
  intros Ha Hc. destruct (match_engine e scope d) as [t b dist|] eqn:Hm; [eauto|].
  rewrite match_engine_NoMatch in Hm. rewrite (Hm a Ha) in Hc. done.
Qed.

End MatchEngine.

(* ===================================================================== *)
(** * Properties of a scan *)
(* ===================================================================== *)

Section Scan.
Context `{Services}.

Lemma embed_dim img e : embed img = Some e → length e = embedding_dim.
Proof.
  unfold embed. destruct (embedding_model img) as [v|]; [|done].
  case_bool_decide; [|done]. by intros [= <-].
Qed.

Lemma fresh_id {A} (f : A → Z) (l : list A) (seq : Z) :
  Forall (λ x, f x < seq) l → seq ∉ f <$> l.
Proof.
  intros Hl (x & -> & Hx)%list_elem_of_fmap.
  rewrite Forall_forall in Hl. specialize (Hl x Hx). simpl in Hl. lia.
Qed.

(** The ledger step records the scan event and finishes the scan. *)
Lemma ledger_step req o art w :
  db_wf (store w) → artwork_exists (store w) art = true →
  ∃ w', worker_step req (Ledger o art) w = (Done o, w') ∧
        museums (store w') = museums (store w) ∧
        artworks (store w') = artworks (store w) ∧
        artworks_id_seq (store w') = artworks_id_seq (store w) ∧
        user_scans (store w') = user_scans (store w) ++ [scan_event req art w] ∧
        db_wf (store w').
Proof.
  intros (Hm & Ha & Hs) Hart. simpl. unfold insert_user_scan.
  rewrite bool_decide_eq_true_2 by (by apply fresh_id). simpl.
  rewrite Hart. simpl. eexists. split; [done|]. simpl.
  repeat split; try done.
  apply Forall_app. split.
  - eapply Forall_impl; [done|]. simpl. intros; lia.
  - apply Forall_singleton. simpl. lia.
Qed.

Lemma run_worker_Done fuel req o w : run_worker fuel req (Done o) w = (Done o, w).
Proof. by destruct fuel. Qed.

Lemma run_worker_S fuel req p w :
  (∀ o, p ≠ Done o) →
  run_worker (S fuel) req p w
  = run_worker fuel req (worker_step req p w).1 (worker_step req p w).2.
Proof.
  intros Hp. simpl. destruct (worker_step req p w) as [p' w'] eqn:Hstep.
  destruct p; try done. by destruct (Hp o).
Qed.

Lemma match_artwork_exists e scope d t a dist :
  match_engine e scope d = Match t a dist → artwork_exists d (Some (art_id a)) = true.
Proof.
  intros (Ha & _)%match_engine_Match. simpl. apply bool_decide_eq_true_2.
  by apply list_elem_of_fmap_2.
Qed.

(** A scan of an image that matches resolves to the match, records the
    scan and leaves the artworks as they were. *)
Lemma submitScan_match req w e t a dist :
  db_wf (store w) →
  embed (req_image req) = Some e →
  match_engine e (candidateMuseums (req_lat req) (req_lon req) (store w)) (store w)
    = Match t a dist →
  ∃ w', submitScan req w = Some (Matched t a dist, w') ∧
        artworks (store w') = artworks (store w) ∧
        user_scans (store w')
          = user_scans (store w) ++ [scan_event req (Some (art_id a)) (tick (tick (tick w)))].
Proof.
  intros Hwf Hemb Hmatch. unfold submitScan.
  rewrite run_worker_S by done. cbn [worker_step]. rewrite Hemb. cbn [fst snd].
  rewrite run_worker_S by done. cbn [worker_step fst snd store tick].
  rewrite run_worker_S by done. cbn [worker_step store tick]. rewrite Hmatch.
  cbn [fst snd].
  destruct (ledger_step req (Matched t a dist) (Some (art_id a)) (tick (tick (tick w))))
    as (w' & Hstep & _ & Harts & _ & Hscans & _); [done|..].
  { by eapply match_artwork_exists. }
  rewrite run_worker_S by done. rewrite Hstep. cbn [fst snd].
  rewrite run_worker_Done. exists w'. done.
Qed.

(** A scan that finds no match and whose analysis reports that the subject
    is not an artwork ends in [not_art]. *)
Lemma submitScan_not_art req w e an :
  db_wf (store w) →
  embed (req_image req) = Some e →
  match_engine e (candidateMuseums (req_lat req) (req_lon req) (store w)) (store w)
    = NoMatch →
  analyze (req_image req) = Some an → isArtwork an = false →
  ∃ w', submitScan req w = Some (NotArt, w') ∧
        museums (store w') = museums (store w) ∧
        artworks (store w') = artworks (store w) ∧
        user_scans (store w')
          = user_scans (store w) ++ [scan_event req None (tick (tick (tick (tick w))))].
Proof.
  intros Hwf Hemb Hmatch Han Hnot. unfold submitScan.
  rewrite run_worker_S by done. cbn [worker_step]. rewrite Hemb. cbn [fst snd].
  rewrite run_worker_S by done. cbn [worker_step fst snd store tick].
  rewrite run_worker_S by done. cbn [worker_step store tick]. rewrite Hmatch.
  cbn [fst snd].
  rewrite run_worker_S by done. cbn [worker_step]. rewrite Han, Hnot. cbn [fst snd].
  destruct (ledger_step req NotArt None (tick (tick (tick (tick w)))))
    as (w' & Hstep & Hmus & Harts & _ & Hscans & _); [done|done|].
  rewrite run_worker_S by done. rewrite Hstep. cbn [fst snd].
  rewrite run_worker_Done. exists w'. done.
Qed.

End Scan.

(* ===================================================================== *)
(** * The output tier and its presentation *)
(* ===================================================================== *)

Section Tier.
Local Abbreviation stored_is_verified := is_verified.
Import Frontend.

Lemma modal_badges_app l1 l2 :
  modal_badges (l1 ++ l2) = modal_badges l1 ++ modal_badges l2.
Proof. apply List.filter_app. Qed.

Lemma modal_badges_details a :
  modal_badges (modal_image a) = [] ∧ modal_badges (modal_similarity a) = [] ∧
  modal_badges (modal_report a) = [] ∧ modal_badges (modal_confidence a) = [].
Proof.
  unfold modal_image, modal_similarity, modal_report, modal_confidence, when.
  destruct (image_url a), (similarity a), (confidence a);
    repeat match goal with
           | |- context [truthy_string ?x] => destruct (truthy_string x)
           | |- context [truthy_number ?x] => destruct (truthy_number x)
           | |- context [bool_decide ?x] => destruct (bool_decide x)
           end; done.
Qed.

Lemma modal_badges_blocks r a :
  artwork r = Some a →
  modal_badges (verified_block r)
  = block (bool_decide (status r = verified_result) ||
           bool_decide (status r = match_found) && truthy_bool (is_verified a))
          [ModalBadge Official_Museum_Data] ∧
  modal_badges (community_block r)
  = block (bool_decide (status r = community_result) ||
           bool_decide (status r = match_found) && negb (truthy_bool (is_verified a)))
          [ModalBadge AI_Analysis] ∧
  modal_badges (ai_analysis_block r)
  = block (bool_decide (status r = ai_analysis)) [ModalBadge AI_Estimate] ∧
  modal_badges (not_art_block r) = [].
Proof.
  intros Ha.
  destruct (modal_badges_details a) as (Him & Hsim & Hrep & Hconf).
  unfold verified_block, community_block, ai_analysis_block, not_art_block, block.
  rewrite Ha. repeat split.
  - destruct (_ || _); [|done].
    rewrite !modal_badges_app, Him, Hsim. reflexivity.
  - destruct (_ || _); [|done].
    rewrite !modal_badges_app, Him, Hsim, Hrep. reflexivity.
  - destruct (bool_decide _); [|done].
    rewrite !modal_badges_app, Hconf, Hrep. reflexivity.
  - by destruct (bool_decide _).
Qed.

(** The badge of the legacy result modal, for a response whose status is
    [match_found] or the status of the tier. *)
Lemma ScanScreen_modal_badges r a :
  artwork r = Some a →
  status r = match_found ∨
  status r = status_of_tier (if isVerified a then verified else community) →
  modal_badges (ScanScreen_modal (Some r))
  = [ModalBadge (if isVerified a then Official_Museum_Data else AI_Analysis)].
Proof.
  intros Ha Hst.
  destruct (modal_badges_blocks r a Ha) as (Hv & Hc & Hai & Hna).
  unfold ScanScreen_modal. rewrite !modal_badges_app, Hv, Hc, Hai, Hna.
  unfold isVerified in *. unfold truthy_bool.
  destruct (default false (is_verified a)); destruct Hst as [-> | ->]; reflexivity.
Qed.




End Tier.

(* ===================================================================== *)
(** * The threshold, the not-art outcome and the geofence *)
(* ===================================================================== *)

Section Outcomes.
Context `{Services}.

(** C2, amended.  A match is a stored artwork in scope whose cosine
    distance to the query is strictly below 0.15.  When some stored
    artwork [a] in scope is within 0.15 of the query, the engine returns a
    match that is at least as near as [a] (and is [a] itself when every
    other candidate is strictly farther), and the scan resolves to that
    match and creates no artwork row.  When no stored artwork in scope is
    within 0.15, the result is NoMatch. *)
Theorem match_threshold (e : embedding) (scope : gset Z) (d : db) :
  (∀ t a dist,
      match_engine e scope d = Match t a dist →
      a ∈ artworks d ∧ in_scope scope a = true ∧
      ∃ v, art_embedding a = Some v ∧ dist = cosine_distance e v ∧
           (dist < threshold)%Q) ∧
  (∀ a v,
      a ∈ artworks d → in_scope scope a = true → art_embedding a = Some v →
      (cosine_distance e v < threshold)%Q →
      ∃ t b dist,
        match_engine e scope d = Match t b dist ∧
        (dist <= cosine_distance e v)%Q ∧
        ((∀ b' db, b' ∈ artworks d → b' ≠ a → candidate e scope b' = true →
                   distance_to e b' = Some db → (cosine_distance e v < db)%Q) →
         b = a) ∧
        ∀ req w,
          store w = d → db_wf d → embed (req_image req) = Some e →
          scope = candidateMuseums (req_lat req) (req_lon req) d →
          ∃ w', submitScan req w = Some (Matched t b dist, w') ∧
                artworks (store w') = artworks d) ∧
  ((∀ a v, a ∈ artworks d → in_scope scope a = true → art_embedding a = Some v →
           (threshold <= cosine_distance e v)%Q) →
   match_engine e scope d = NoMatch).
Proof.
  split; [|split].
  - intros t a dist (Ha & Hc & Hd & _)%match_engine_Match.
    apply candidate_spec in Hc as (Hs & v & Hv & Hlt).
    split; [done|]. split; [done|]. exists v. split; [done|].
    unfold distance_to in Hd. rewrite Hv in Hd. injection Hd as <-. done.
  - intros a v Ha Hs Hv Hlt.
    assert (Hc : candidate e scope a = true) by (apply candidate_spec; eauto).
    assert (Hda : distance_to e a = Some (cosine_distance e v))
      by (unfold distance_to; by rewrite Hv).
    destruct (match_engine_some e scope d a Ha Hc) as (t & b & dist & Hm).
    exists t, b, dist. split; [done|].
    pose proof Hm as (Hb & Hcb & Hdb & _ & Hmin)%match_engine_Match.
    split; [by apply (Hmin a)|]. split.
    + intros Hstrict. destruct (decide (b = a)) as [|Hne]; [done|exfalso].
      pose proof (Hstrict b dist Hb Hne Hcb Hdb) as Hfar.
      pose proof (Hmin a _ Ha Hc Hda) as Hnear.
      by apply Qlt_not_le in Hfar.
    + intros req w <- Hwf Hemb ->.
      destruct (submitScan_match req w e t b dist Hwf Hemb Hm) as (w' & Hrun & Harts & _).
      eauto.
  - intros Hfar. apply match_engine_NoMatch. intros a Ha.
    destruct (candidate e scope a) eqn:Hc; [exfalso|done].
    apply candidate_spec in Hc as (Hs & v & Hv & Hlt).
    apply Qlt_not_le in Hlt. apply Hlt. by eapply Hfar.
Qed.

(** C3.  A scan that finds no match and whose analysis classifies the
    subject as not an artwork terminates in [not_art]: the artworks (and so
    the stored embeddings) and the museums are as before, and exactly one
    row is appended to [user_scans], for the scanning user, with a NULL
    artwork reference. *)
Theorem not_art_outcome (req : scan_request) (w : world) (e : embedding)
    (an : analysis) :
  db_wf (store w) →
  embed (req_image req) = Some e →
  match_engine e (candidateMuseums (req_lat req) (req_lon req) (store w)) (store w)
    = NoMatch →
  analyze (req_image req) = Some an → isArtwork an = false →
  ∃ w' ev,
    submitScan req w = Some (NotArt, w') ∧
    artworks (store w') = artworks (store w) ∧
    museums (store w') = museums (store w) ∧
    user_scans (store w') = user_scans (store w) ++ [ev] ∧
    artwork_id ev = None ∧ user_id ev = req_user req ∧
    scan_image_url ev = req_image_url req.
Proof.
  intros Hwf Hemb Hm Han Hnot.
  destruct (submitScan_not_art req w e an Hwf Hemb Hm Han Hnot)
    as (w' & Hrun & Hmus & Harts & Hscans).
  exists w', (scan_event req None (tick (tick (tick (tick w))))).
  by repeat split.
Qed.

End Outcomes.

(** C2, as stated, fails: the artwork [south_east] is in scope and within
    0.15 of the query [east], yet the engine returns the nearer artwork
    [north_east]. *)
Lemma match_threshold_counterexample :
  let a := embedded_artwork 1 None south_east in
  let b := embedded_artwork 2 None north_east in
  a ∈ artworks two_neighbours_db ∧ in_scope ∅ a = true ∧
  (cosine_distance (Services := test_services) east south_east < threshold)%Q ∧
  (∃ dist, match_engine (H := test_services) east ∅ two_neighbours_db
           = Match community b dist) ∧
  ¬ (∃ t dist, match_engine (H := test_services) east ∅ two_neighbours_db
               = Match t a dist).
Proof.
  intros a b. split; [by left|]. split; [reflexivity|].
  split; [by vm_compute|].
  assert (Hm : ∃ dist, match_engine (H := test_services) east ∅ two_neighbours_db
                       = Match community b dist).
  { eexists. vm_compute. reflexivity. }
  split; [exact Hm|].
  destruct Hm as [dist Hm]. intros (t & dist' & Hm'). rewrite Hm in Hm'.
  assert (Hid : art_id b = art_id a) by (by injection Hm' as _ -> _).
  discriminate Hid.
Qed.

Lemma two_neighbours_db_wf : db_wf two_neighbours_db.
Proof.
  repeat split; repeat (apply Forall_cons; split; [by vm_compute|]); apply Forall_nil_2.
Defined.

Lemma two_neighbours_cases (P : artwork → Prop) a :
  a ∈ artworks two_neighbours_db →
  P (embedded_artwork 1 None south_east) →
  P (embedded_artwork 2 None north_east) → P a.
Proof.
  intros Ha H1 H2.
  apply elem_of_cons in Ha as [-> |Ha]; [done|].
  apply elem_of_cons in Ha as [-> |Ha]; [done|].
  by apply elem_of_nil in Ha.
Defined.

Lemma match_threshold_witness :
  let w := {| store := two_neighbours_db; clock := 100 |} in
  (∃ t b dist,
      match_engine (H := test_services) east ∅ two_neighbours_db = Match t b dist ∧
      (dist <= cosine_distance (Services := test_services) east north_east)%Q ∧
      b = embedded_artwork 2 None north_east ∧
      ∃ w', submitScan (H := test_services) (scan_of "lilies_1.jpg" 0 0) w
              = Some (Matched t b dist, w') ∧
            artworks (store w') = artworks two_neighbours_db) ∧
  match_engine (H := test_services) north ∅ two_neighbours_db = NoMatch.
Proof.
  intros w.
  destruct (match_threshold (H := test_services) east ∅ two_neighbours_db)
    as (_ & Hnear & _).
  destruct (match_threshold (H := test_services) north ∅ two_neighbours_db)
    as (_ & _ & Hnone).
  split.
  - destruct (Hnear (embedded_artwork 2 None north_east) north_east)
      as (t & b & dist & Hm & Hle & Hsame & Hscan).
    + apply elem_of_cons. right. apply elem_of_cons. by left.
    + reflexivity.
    + reflexivity.
    + by vm_compute.
    + exists t, b, dist. split; [exact Hm|]. split; [exact Hle|]. split.
      * apply Hsame. intros b' db Hb'.
        apply (two_neighbours_cases
                 (λ b', b' ≠ embedded_artwork 2 None north_east →
                        candidate (H := test_services) east ∅ b' = true →
                        distance_to (H := test_services) east b' = Some db →
                        (cosine_distance (Services := test_services) east north_east
                         < db)%Q) b' Hb').
        -- intros _ _ Hdb. vm_compute in Hdb. injection Hdb as <-. by vm_compute.
        -- intros Hne. by destruct Hne.
      * apply (Hscan (scan_of "lilies_1.jpg" 0 0) w eq_refl two_neighbours_db_wf).
        -- vm_compute. reflexivity.
        -- reflexivity.
  - apply Hnone. intros a v Ha.
    apply (two_neighbours_cases
             (λ a, in_scope ∅ a = true → art_embedding a = Some v →
                   (threshold <= cosine_distance (Services := test_services) north v)%Q)
             a Ha).
    + intros _ [= <-]. by vm_compute.
    + intros _ [= <-]. by vm_compute.
Defined.

Lemma not_art_outcome_witness :
  let w := {| store := two_neighbours_db; clock := 100 |} in
  ∃ w' ev,
    submitScan (H := test_services) (scan_of "cat.jpg" 0 0) w = Some (NotArt, w') ∧
    artworks (store w') = artworks two_neighbours_db ∧
    museums (store w') = [] ∧
    user_scans (store w') = [ev] ∧
    artwork_id ev = None ∧ user_id ev = "anonymous"%string ∧
    scan_image_url ev = Some "https://img/cat.jpg"%string.
Proof.
  intros w.
  apply (not_art_outcome (H := test_services) (scan_of "cat.jpg" 0 0) w north
           not_art_analysis two_neighbours_db_wf).
  - vm_compute. reflexivity.
  - vm_compute. reflexivity.
  - reflexivity.
  - reflexivity.
Defined.

(* ===================================================================== *)
(** * The geofence *)
(* ===================================================================== *)

Lemma insert_artwork_Ok now i d d' :
  insert_artwork now i d = Ok d' →
  d' = with_artworks d (artworks d ++ [new_artwork_row now i d]) (artworks_id_seq d + 1).
Proof.
  unfold insert_artwork.
  destruct (require _ _) as [[]|]; simpl; [|done].
  destruct (artwork_row_checks d _) as [[]|]; simpl; [|done].
  by intros [= <-].
Qed.

Lemma insert_user_scan_Ok now user art img d d' :
  insert_user_scan now user art img d = Ok d' →
  museums d' = museums d ∧ artworks d' = artworks d ∧
  artworks_id_seq d' = artworks_id_seq d ∧ museums_id_seq d' = museums_id_seq d ∧
  user_scans_id_seq d' = user_scans_id_seq d + 1 ∧
  user_scans d'
  = user_scans d ++ [{| scan_id := user_scans_id_seq d; user_id := user;
                        artwork_id := art; scan_image_url := img;
                        timestamp := Some now |}].
Proof.
  unfold insert_user_scan.
  destruct (require (bool_decide _) _) as [[]|]; simpl; [|done].
  destruct (require (artwork_exists _ _) _) as [[]|]; simpl; [|done].
  by intros [= <-].
Qed.

Section Geofence.
Context `{Services}.

Lemma candidateMuseums_spec lat lon d i :
  i ∈ candidateMuseums lat lon d ↔
  ∃ m, m ∈ museums d ∧ mus_id m = i ∧
       (great_circle_distance (lon, lat) (location m)
        <= inject_Z (geofence_radius_meters m))%Q.
Proof.
  unfold candidateMuseums. rewrite elem_of_list_to_set, list_elem_of_fmap.
  split.
  - intros (m & -> & Hm). apply list_elem_of_In, filter_In in Hm as [Hm Hin].
    exists m. split; [by apply list_elem_of_In|]. split; [done|].
    by apply Qle_bool_iff.
  - intros (m & Hm & <- & Hle). exists m. split; [done|].
    apply list_elem_of_In, filter_In. split; [by apply list_elem_of_In|].
    by apply Qle_bool_iff.
Qed.

Lemma candidateMuseums_museums lat lon d d' :
  museums d = museums d' → candidateMuseums lat lon d = candidateMuseums lat lon d'.
Proof. unfold candidateMuseums. by intros ->. Qed.

(** The store's museums are the same after any step of a scan. *)
Lemma worker_step_museums req p w :
  museums (store (worker_step req p w).2) = museums (store w).
Proof.
  destruct p; simpl; try done.
  - by destruct (embed _).
  - by destruct (match_engine _ _ _).
  - destruct (analyze _) as [an|]; [|done]. by destruct (isArtwork an).
  - by destruct (match_engine _ _ _).
  - unfold guarded_insert. destruct (match_engine _ _ _); [done|].
    destruct (insert_artwork _ _ _) as [d'|] eqn:Hins; [|done].
    apply insert_artwork_Ok in Hins as ->. done.
  - by destruct (match_engine _ _ _).
  - destruct (insert_user_scan _ _ _ _ _) as [d'|] eqn:Hins; [|done].
    by apply insert_user_scan_Ok in Hins as (Hm & _).
Qed.

Section Outside.
Variables (lat lon : Q) (d : db) (a : artwork) (mid : Z).
Hypothesis a_museum : museum_id a = Some mid.
Hypothesis a_outside : mid ∉ candidateMuseums lat lon d.

Lemma outside_not_matched e t b dist d' :
  match_engine e (candidateMuseums lat lon d) d' = Match t b dist → b ≠ a.
Proof.
  intros (_ & Hc & _)%match_engine_Match ->.
  apply candidate_spec in Hc as [Hs _]. unfold in_scope in Hs.
  rewrite a_museum in Hs. by apply bool_decide_eq_true_1 in Hs.
Qed.

(** A scan from [(lat, lon)] never carries [a] as its outcome. *)
Lemma worker_step_outside req p w :
  req_lat req = lat → req_lon req = lon →
  museums (store w) = museums d →
  (∀ s, pc_scope p = Some s → s = candidateMuseums lat lon d) →
  (∀ o, pc_outcome p = Some o → outcome_artwork o ≠ Some a) →
  (∀ s, pc_scope (worker_step req p w).1 = Some s → s = candidateMuseums lat lon d) ∧
  (∀ o, pc_outcome (worker_step req p w).1 = Some o → outcome_artwork o ≠ Some a).
Proof.
  intros Hlat Hlon Hmus Hscope Hout.
  destruct p; simpl in *.
  - destruct (embed _); simpl; split; intros ? [= <-]; done.
  - split; [|done]. intros s [= <-]. rewrite Hlat, Hlon.
    by apply candidateMuseums_museums.
  - rewrite (Hscope scope eq_refl).
    destruct (match_engine _ _ _) as [t b dist|] eqn:Hm; simpl.
    + split; [done|]. intros o [= <-]. simpl. intros [= ->].
      by eapply outside_not_matched.
    + split; [|done]. by intros s [= <-].
  - destruct (analyze _) as [an|]; simpl; [|split; intros ? [= <-]; done].
    destruct (isArtwork an); simpl.
    + split; [|done]. intros s [= <-]. by apply Hscope.
    + split; [done|]. by intros o [= <-].
  - rewrite (Hscope scope eq_refl).
    destruct (match_engine _ _ _) as [t b dist|] eqn:Hm; simpl.
    + split; [done|]. intros o [= <-]. simpl. intros [= ->].
      by eapply outside_not_matched.
    + split; [|done]. by intros s [= <-].
  - unfold guarded_insert. destruct (match_engine _ _ _); simpl.
    + split; [|done]. intros s [= <-]. by apply Hscope.
    + destruct (insert_artwork _ _ _); simpl.
      * split; [done|]. intros o [= <-]. simpl. intros [= Ha].
        apply (f_equal museum_id) in Ha. rewrite a_museum in Ha. done.
      * split; [done|]. by intros o [= <-].
  - rewrite (Hscope scope eq_refl).
    destruct (match_engine _ _ _) as [t b dist|] eqn:Hm; simpl.
    + split; [done|]. intros o [= <-]. simpl. intros [= ->].
      by eapply outside_not_matched.
    + split; [|done]. by intros s [= <-].
  - destruct (insert_user_scan _ _ _ _ _); simpl.
    + split; [done|]. intros o' [= <-]. by apply Hout.
    + split; [done|]. by intros o' [= <-].
  - split; [done|]. intros o' [= <-]. by apply Hout.
Qed.

Lemma run_worker_outside fuel req p w :
  req_lat req = lat → req_lon req = lon →
  museums (store w) = museums d →
  (∀ s, pc_scope p = Some s → s = candidateMuseums lat lon d) →
  (∀ o, pc_outcome p = Some o → outcome_artwork o ≠ Some a) →
  ∀ o, pc_outcome (run_worker fuel req p w).1 = Some o → outcome_artwork o ≠ Some a.
Proof.
  intros Hlat Hlon. revert p w.
  induction fuel as [|fuel IH]; intros p w Hmus Hscope Hout; [done|].
  assert (Hcase : (∃ o, p = Done o) ∨ ∀ o, p ≠ Done o)
    by (destruct p; eauto).
  destruct Hcase as [[o ->]|Hnd].
  { by rewrite run_worker_Done. }
  rewrite run_worker_S by done.
  destruct (worker_step_outside req p w Hlat Hlon Hmus Hscope Hout) as [Hs' Ho'].
  apply IH; [|done|done]. by rewrite worker_step_museums.
Qed.

End Outside.
End Geofence.

Section GeofenceScope.
Context `{Services}.

(** C6.  [candidateMuseums] returns exactly the ids of the museums whose
    great-circle distance from the position is at most their radius.  An
    empty result is a scope like any other: the scan goes on to the match
    engine, whose candidates are then the unaffiliated artworks within the
    threshold.  An artwork of a museum whose geofence does not contain the
    position is out of scope: the engine does not return it, and no scan
    from that position ends with it as its artwork. *)
Theorem geofence_scope (lat lon : Q) (d : db) :
  (∀ i, (i ∈ candidateMuseums lat lon d) ↔
        ∃ m, m ∈ museums d ∧ mus_id m = i ∧
             (great_circle_distance (lon, lat) (location m)
              <= inject_Z (geofence_radius_meters m))%Q) ∧
  (∀ req e w,
      req_lat req = lat → req_lon req = lon → store w = d →
      worker_step req (Geofence e) w
      = (Matching e (candidateMuseums lat lon d), tick w)) ∧
  (candidateMuseums lat lon d = ∅ →
   ∀ e a, candidate e (candidateMuseums lat lon d) a = true ↔
          museum_id a = None ∧
          ∃ v, art_embedding a = Some v ∧ (cosine_distance e v < threshold)%Q) ∧
  (∀ a mid,
      museum_id a = Some mid →
      (∀ m, m ∈ museums d → mus_id m = mid →
            (inject_Z (geofence_radius_meters m)
             < great_circle_distance (lon, lat) (location m))%Q) →
      (mid ∉ candidateMuseums lat lon d) ∧
      (∀ e t dist, match_engine e (candidateMuseums lat lon d) d ≠ Match t a dist) ∧
      (∀ req w o w',
          req_lat req = lat → req_lon req = lon → store w = d →
          submitScan req w = Some (o, w') → outcome_artwork o ≠ Some a)).
Proof.
  split; [apply candidateMuseums_spec|]. split; [|split].
  - intros req e w <- <- <-. reflexivity.
  - intros Hempty e a. rewrite Hempty, candidate_spec. unfold in_scope.
    destruct (museum_id a) as [m|].
    + rewrite bool_decide_eq_false_2 by apply not_elem_of_empty.
      split; by intros [? _].
    + split; intros [_ ?]; done.
  - intros a mid Ha Hfar.
    assert (Hout : mid ∉ candidateMuseums lat lon d).
    { intros (m & Hm & Hid & Hle)%candidateMuseums_spec.
      apply (Qlt_not_le _ _ (Hfar m Hm Hid)). done. }
    split; [done|]. split.
    + intros e t dist Hm.
      by apply (outside_not_matched lat lon d a mid Ha Hout e t a dist d).
    + intros req w o w' Hlat Hlon Hw Hrun. unfold submitScan in Hrun.
      destruct (run_worker 7 req Start w) as [p w''] eqn:Hp.
      destruct p; try done. injection Hrun as <- <-.
      apply (run_worker_outside lat lon d a mid Ha Hout 7 req Start w);
        try done.
      * by rewrite Hw.
      * by rewrite Hp.
Qed.

End GeofenceScope.

Lemma geofence_scope_witness :
  let a := embedded_artwork 1 (Some 1) east in
  let w := {| store := geofence_db; clock := 100 |} in
  (1 ∈ candidateMuseums (H := test_services) (north_of_museum 150) museum_lon
         geofence_db) ∧
  (1 ∉ candidateMuseums (H := test_services) (north_of_museum 250) museum_lon
         geofence_db) ∧
  (∀ t dist,
      match_engine (H := test_services) east
        (candidateMuseums (H := test_services) (north_of_museum 250) museum_lon
           geofence_db) geofence_db
      ≠ Match t a dist) ∧
  (∃ o w', submitScan (H := test_services)
             (scan_of "lilies_1.jpg" (north_of_museum 250) museum_lon) w
           = Some (o, w') ∧
           outcome_artwork o ≠ Some a).
Proof.
  intros a w.
  destruct (geofence_scope (H := test_services) (north_of_museum 150) museum_lon
              geofence_db) as (Hin & _).
  destruct (geofence_scope (H := test_services) (north_of_museum 250) museum_lon
              geofence_db) as (_ & _ & _ & Hout).
  split.
  { apply Hin. exists sample_museum.
    split; [apply list_elem_of_singleton; reflexivity|]. split; [reflexivity|].
    by vm_compute. }
  destruct (Hout a 1 eq_refl) as (Hscope & Hmatch & Hscan).
  { intros m Hm _. apply list_elem_of_singleton in Hm as ->. by vm_compute. }
  split; [exact Hscope|]. split; [exact (Hmatch east)|].
  destruct (submitScan (H := test_services)
              (scan_of "lilies_1.jpg" (north_of_museum 250) museum_lon) w)
    as [[o w']|] eqn:Hrun; [|by vm_compute in Hrun].
  exists o, w'. split; [reflexivity|].
  exact (Hscan (scan_of "lilies_1.jpg" (north_of_museum 250) museum_lon) w o w'
           eq_refl eq_refl eq_refl Hrun).
Defined.

(* ===================================================================== *)
(** * Two concurrent first-time scans *)
(* ===================================================================== *)

Section Race.
Context `{Services}.
Variable d0 : db.
Hypothesis d0_wf : db_wf d0.

Lemma world_ok_tick w : world_ok d0 w → world_ok d0 (tick w).
Proof. done. Qed.

(** The ledger step of a scan that resolved to a stored artwork. *)
Lemma ledger_step_ok req o art w :
  world_ok d0 w → artwork_exists (store w) art = true →
  ∃ w', worker_step req (Ledger o art) w = (Done o, w') ∧ world_ok d0 w' ∧
        artworks (store w') = artworks (store w) ∧
        artworks_id_seq (store w') = artworks_id_seq (store w).
Proof.
  intros [Hmus Hscans] Hart. simpl. unfold insert_user_scan.
  rewrite bool_decide_eq_true_2 by (by apply fresh_id). simpl.
  rewrite Hart. simpl. eexists. split; [done|]. split; [|done].
  split; [done|]. simpl. apply Forall_app. split.
  - eapply Forall_impl; [done|]. simpl. intros; lia.
  - apply Forall_singleton. simpl. lia.
Qed.

Section Party.
Variables (req : scan_request) (e : embedding) (an : analysis) (scope : gset Z).
Hypothesis party_embed : embed (req_image req) = Some e.
Hypothesis party_analyze : analyze (req_image req) = Some an.
Hypothesis party_artwork : isArtwork an = true.
Hypothesis party_confidence : in_unit_interval (an_confidence an).
Hypothesis party_scope : scope = candidateMuseums (req_lat req) (req_lon req) d0.
Hypothesis party_new : match_engine e scope d0 = NoMatch.

(** The Coordinator's row passes the checks of the store. *)
Lemma insert_creation_ok now d :
  Forall (λ r, art_id r < artworks_id_seq d) (artworks d) →
  insert_artwork now (creation_request req e an) d
  = Ok (with_artworks d (artworks d ++ [new_artwork_row now (creation_request req e an) d])
                      (artworks_id_seq d + 1)).
Proof.
  intros Hfresh. unfold insert_artwork.
  rewrite bool_decide_eq_true_2 by (by apply fresh_id). simpl.
  assert (artwork_row_checks d (new_artwork_row now (creation_request req e an) d)
          = Ok tt) as ->; [|done].
  apply artwork_row_checks_ok. repeat split.
  - unfold embedding_dim_ok. simpl. apply bool_decide_eq_true_2.
    by eapply embed_dim.
  - apply check_confidence_range_spec. intros c [= <-]. done.
Qed.

Lemma step_early w p :
  world_ok d0 w → artworks (store w) = artworks d0 →
  artworks_id_seq (store w) = artworks_id_seq d0 → early e scope an p →
  ∃ p' w',
    worker_step req p w = (p', w') ∧ world_ok d0 w' ∧
    (steps_left p' ≤ pred (steps_left p))%nat ∧
    ((artworks (store w') = artworks d0 ∧
      artworks_id_seq (store w') = artworks_id_seq d0 ∧ early e scope an p') ∨
     (∃ r, artworks (store w') = artworks d0 ++ [r] ∧ row_of e r ∧ created r p')).
Proof.
  intros Hw Harts Hseq Hp.
  assert (Hno : match_engine e scope (store w) = NoMatch).
  { by rewrite (match_engine_ext e scope (store w) d0). }
  unfold early in Hp. destruct Hp as [-> |[-> |[-> |[-> |[-> | ->]]]]]; simpl.
  - rewrite party_embed. eexists _, _. split; [done|]. split; [done|].
    split; [simpl; lia|]. left. unfold early. auto 10.
  - eexists _, _. split; [done|]. split; [done|]. split; [simpl; lia|].
    left. split; [done|]. split; [done|].
    rewrite (candidateMuseums_museums _ _ (store w) d0) by apply Hw.
    rewrite <- party_scope. unfold early. auto 10.
  - rewrite Hno. eexists _, _. split; [done|]. split; [done|].
    split; [simpl; lia|]. left. unfold early. auto 10.
  - rewrite party_analyze, party_artwork. eexists _, _. split; [done|].
    split; [done|]. split; [simpl; lia|]. left. unfold early. auto 10.
  - rewrite Hno. eexists _, _. split; [done|]. split; [done|].
    split; [simpl; lia|]. left. unfold early. auto 10.
  - unfold guarded_insert. rewrite Hno.
    rewrite insert_creation_ok.
    2:{ rewrite Harts, Hseq. apply d0_wf. }
    eexists _, _. split; [done|]. split; [by destruct Hw|].
    split; [simpl; lia|]. right. eexists. simpl. rewrite Harts.
    split; [done|]. split; [done|]. by left.
Qed.

Section Follower.
Variables (e' : embedding) (r : artwork).
Hypothesis near : (cosine_distance e e' < threshold)%Q.
Hypothesis r_row : row_of e' r.

(** Once the other scan's row is stored, every query of this scan finds it. *)
Lemma match_after_insert d :
  artworks d = artworks d0 ++ [r] →
  ∃ dist, match_engine e scope d = Match community r dist.
Proof.
  intros Harts. destruct r_row as (Hemb & Hmus & Hver).
  assert (Hc : candidate e scope r = true).
  { apply candidate_spec. unfold in_scope. rewrite Hmus. eauto. }
  destruct (match_engine_some e scope d r) as (t & b & dist & Hm); [|done|].
  { rewrite Harts. apply elem_of_app. right. by left. }
  pose proof Hm as (Hb & Hcb & _ & Ht & _)%match_engine_Match.
  rewrite Harts in Hb. apply elem_of_app in Hb as [Hb|Hb].
  - rewrite match_engine_NoMatch in party_new. by rewrite party_new in Hcb.
  - apply list_elem_of_singleton in Hb as ->. exists dist. rewrite Hm.
    f_equal. rewrite Ht. unfold tier_of. by rewrite Hver.
Qed.

Lemma step_follower w p :
  world_ok d0 w → artworks (store w) = artworks d0 ++ [r] →
  follower e scope an r p →
  ∃ p' w',
    worker_step req p w = (p', w') ∧ world_ok d0 w' ∧
    artworks (store w') = artworks (store w) ∧
    follower e scope an r p' ∧
    (steps_left p' ≤ pred (steps_left p))%nat.
Proof.
  intros Hw Harts Hp.
  destruct (match_after_insert (store w) Harts) as [dist Hm].
  assert (Hex : artwork_exists (store w) (Some (art_id r)) = true).
  { simpl. apply bool_decide_eq_true_2, list_elem_of_fmap_2.
    rewrite Harts. apply elem_of_app. right. by left. }
  destruct Hp as [Hp|[-> |(o & Ho & [-> | ->])]].
  - unfold early in Hp. destruct Hp as [-> |[-> |[-> |[-> |[-> | ->]]]]]; simpl.
    + rewrite party_embed. eexists _, _. split; [done|]. split; [done|].
      split; [done|]. split; [|simpl; lia]. left. unfold early. auto 10.
    + eexists _, _. split; [done|]. split; [done|]. split; [done|].
      split; [|simpl; lia]. left.
      rewrite (candidateMuseums_museums _ _ (store w) d0) by apply Hw.
      rewrite <- party_scope. unfold early. auto 10.
    + rewrite Hm. eexists _, _. split; [done|]. split; [done|]. split; [done|].
      split; [|simpl; lia]. right. right. eexists. split; [|by left].
      left. eauto.
    + rewrite party_analyze, party_artwork. eexists _, _. split; [done|].
      split; [done|]. split; [done|]. split; [|simpl; lia].
      left. unfold early. auto 10.
    + rewrite Hm. eexists _, _. split; [done|]. split; [done|]. split; [done|].
      split; [|simpl; lia]. right. right. eexists. split; [|by left]. by right.
    + unfold guarded_insert. rewrite Hm. eexists _, _. split; [done|].
      split; [done|]. split; [done|]. split; [|simpl; lia]. right. by left.
  - simpl. rewrite Hm. eexists _, _. split; [done|]. split; [done|]. split; [done|].
    split; [|simpl; lia]. right. right. eexists. split; [|by left]. by right.
  - destruct (ledger_step_ok req o (Some (art_id r)) w Hw Hex)
      as (w' & Hstep & Hw' & Harts' & _).
    exists (Done o), w'. split; [done|]. split; [done|]. split; [done|].
    split; [|simpl; lia]. right. right. exists o. split; [done|]. by right.
  - exists (Done o), w. split; [done|]. split; [done|]. split; [done|].
    split; [|simpl; lia]. right. right. exists o. split; [done|]. by right.
Qed.

End Follower.
End Party.

Lemma step_created req r w p :
  world_ok d0 w → artworks (store w) = artworks d0 ++ [r] → created r p →
  ∃ p' w',
    worker_step req p w = (p', w') ∧ world_ok d0 w' ∧
    artworks (store w') = artworks (store w) ∧ created r p' ∧
    (steps_left p' ≤ pred (steps_left p))%nat.
Proof.
  intros Hw Harts [-> | ->].
  - assert (Hex : artwork_exists (store w) (Some (art_id r)) = true).
    { simpl. apply bool_decide_eq_true_2, list_elem_of_fmap_2.
      rewrite Harts. apply elem_of_app. right. by left. }
    destruct (ledger_step_ok req (AiAnalysis r creator) (Some (art_id r)) w Hw Hex)
      as (w' & Hstep & Hw' & Harts' & _).
    eexists _, w'. split; [done|]. split; [done|]. split; [done|].
    split; [by right|simpl; lia].
  - eexists _, w. split; [done|]. split; [done|]. split; [done|].
    split; [by right|simpl; lia].
Qed.

End Race.

Section TwoScans.
Context `{Services}.
Variables (w0 : world) (req1 req2 : scan_request) (e1 e2 : embedding)
          (an1 an2 : analysis).
Hypothesis store_wf : db_wf (store w0).
Hypothesis embed1 : embed (req_image req1) = Some e1.
Hypothesis embed2 : embed (req_image req2) = Some e2.
Hypothesis analyze1 : analyze (req_image req1) = Some an1.
Hypothesis analyze2 : analyze (req_image req2) = Some an2.
Hypothesis artwork1 : isArtwork an1 = true.
Hypothesis artwork2 : isArtwork an2 = true.
Hypothesis confidence1 : in_unit_interval (an_confidence an1).
Hypothesis confidence2 : in_unit_interval (an_confidence an2).
Hypothesis near12 : (cosine_distance e1 e2 < threshold)%Q.
Hypothesis near21 : (cosine_distance e2 e1 < threshold)%Q.
Hypothesis unseen1 :
  match_engine e1 (candidateMuseums (req_lat req1) (req_lon req1) (store w0))
    (store w0) = NoMatch.
Hypothesis unseen2 :
  match_engine e2 (candidateMuseums (req_lat req2) (req_lon req2) (store w0))
    (store w0) = NoMatch.

Let scope1 := candidateMuseums (req_lat req1) (req_lon req1) (store w0).
Let scope2 := candidateMuseums (req_lat req2) (req_lon req2) (store w0).
Let inv := race_inv (store w0) e1 e2 scope1 scope2 an1 an2.
Let start := {| shared := w0; pc1 := Start; pc2 := Start |}.

Lemma early_follower e scope an r p : early e scope an p → follower e scope an r p.
Proof. by left. Qed.

Lemma early_not_Done e scope an o : ¬ early e scope an (Done o).
Proof. intros [?|[?|[?|[?|[?|?]]]]]; discriminate. Qed.

Lemma race_start : inv start.
Proof.
  split; [split; [done|apply store_wf]|]. left.
  repeat split; by left.
Qed.

(** A step of either scan keeps the invariant, brings the stepping scan
    closer to its end, and leaves the other scan where it was. *)
Lemma race_step s i :
  inv s →
  inv (system_step req1 req2 s i) ∧
  (steps_left (pc_of i (system_step req1 req2 s i))
   ≤ pred (steps_left (pc_of i s)))%nat ∧
  ∀ j, j ≠ i → pc_of j (system_step req1 req2 s i) = pc_of j s.
Proof.
  intros [Hw Hphase]. destruct i; simpl.
  - destruct Hphase as [(Harts & Hseq & Hp1 & Hp2)|[(r & Harts & Hr & Hp1 & Hp2)|
                        (r & Harts & Hr & Hp2 & Hp1)]].
    + destruct (step_early (store w0) store_wf req1 e1 an1 scope1 embed1 analyze1
                  artwork1 confidence1 eq_refl unseen1 (shared s) (pc1 s)
                  Hw Harts Hseq Hp1)
        as (p' & w' & -> & Hw' & Hsteps & Hnext).
      split; [|split; [done|by intros []]].
      split; [done|]. simpl.
      destruct Hnext as [(? & ? & ?)|(r & ? & ? & ?)]; [by left|].
      right. left. exists r. eauto using early_follower.
    + destruct (step_created (store w0) req1 r (shared s) (pc1 s) Hw Harts Hp1)
        as (p' & w' & -> & Hw' & Harts' & Hp' & Hsteps).
      split; [|split; [done|by intros []]].
      split; [done|]. simpl. right. left. exists r. rewrite Harts'. done.
    + destruct (step_follower (store w0) req1 e1 an1 scope1 embed1 analyze1
                  artwork1 eq_refl unseen1 e2 r near12 Hr (shared s) (pc1 s)
                  Hw Harts Hp1)
        as (p' & w' & -> & Hw' & Harts' & Hp' & Hsteps).
      split; [|split; [done|by intros []]].
      split; [done|]. simpl. right. right. exists r. rewrite Harts'. done.
  - destruct Hphase as [(Harts & Hseq & Hp1 & Hp2)|[(r & Harts & Hr & Hp1 & Hp2)|
                        (r & Harts & Hr & Hp2 & Hp1)]].
    + destruct (step_early (store w0) store_wf req2 e2 an2 scope2 embed2 analyze2
                  artwork2 confidence2 eq_refl unseen2 (shared s) (pc2 s)
                  Hw Harts Hseq Hp2)
        as (p' & w' & -> & Hw' & Hsteps & Hnext).
      split; [|split; [done|by intros []]].
      split; [done|]. simpl.
      destruct Hnext as [(? & ? & ?)|(r & ? & ? & ?)]; [by left|].
      right. right. exists r. eauto using early_follower.
    + destruct (step_follower (store w0) req2 e2 an2 scope2 embed2 analyze2
                  artwork2 eq_refl unseen2 e1 r near21 Hr (shared s) (pc2 s)
                  Hw Harts Hp2)
        as (p' & w' & -> & Hw' & Harts' & Hp' & Hsteps).
      split; [|split; [done|by intros []]].
      split; [done|]. simpl. right. left. exists r. rewrite Harts'. done.
    + destruct (step_created (store w0) req2 r (shared s) (pc2 s) Hw Harts Hp2)
        as (p' & w' & -> & Hw' & Harts' & Hp' & Hsteps).
      split; [|split; [done|by intros []]].
      split; [done|]. simpl. right. right. exists r. rewrite Harts'. done.
Qed.

Lemma race_run schedule s :
  inv s →
  inv (run_system req1 req2 schedule s) ∧
  ∀ j, (steps_left (pc_of j (run_system req1 req2 schedule s))
        ≤ steps_left (pc_of j s) - turns j schedule)%nat.
Proof.
  revert s. induction schedule as [|i schedule IH]; intros s Hs.
  { split; [done|]. intros j. unfold run_system, turns. simpl. lia. }
  destruct (race_step s i Hs) as (Hs' & Hsteps & Hother).
  destruct (IH _ Hs') as [Hfinal Hleft].
  split; [done|]. intros j. specialize (Hleft j).
  change (run_system req1 req2 (i :: schedule) s)
    with (run_system req1 req2 schedule (system_step req1 req2 s i)).
  destruct (decide (j = i)) as [-> |Hne].
  - assert (turns i (i :: schedule) = S (turns i schedule)) as ->
      by (by destruct i).
    lia.
  - rewrite (Hother j Hne) in Hleft.
    assert (turns j (i :: schedule) = turns j schedule) as ->
      by (by destruct i, j).
    done.
Qed.


End TwoScans.

Lemma unrelated_db_wf : db_wf unrelated_db.
Proof.
  repeat split; repeat (apply Forall_cons; split; [by vm_compute|]); apply Forall_nil_2.
Defined.


(* ===================================================================== *)
(** * Integrity of the store under every statement *)
(* ===================================================================== *)

Lemma check_all_ok d l r :
  check_all d l = Ok tt → r ∈ l → artwork_row_checks d r = Ok tt.
Proof.
  unfold check_all. induction l as [|x l IH]; simpl; [by intros _ ?%elem_of_nil|].
  destruct (artwork_row_checks_dec d x) as [Hx|[e Hx]]; rewrite Hx; simpl; [|done].
  intros Hl [-> |Hr]%elem_of_cons; auto.
Qed.

Lemma update_row_ids i s (l : list artwork) :
  art_id <$> (update_row i s <$> l) = art_id <$> l.
Proof.
  rewrite <- list_fmap_compose. apply list_fmap_ext. intros k r _. simpl.
  unfold update_row. by case_bool_decide.
Qed.

Lemma museum_exists_iff d m :
  museum_exists d (Some m) = true ↔ ∃ x, x ∈ museums d ∧ mus_id x = m.
Proof.
  simpl. rewrite bool_decide_eq_true, list_elem_of_fmap.
  split; [intros (x & -> & Hx)|intros (x & Hx & <-)]; eauto.
Qed.

Lemma artwork_exists_iff d a :
  artwork_exists d (Some a) = true ↔ ∃ r, r ∈ artworks d ∧ art_id r = a.
Proof.
  simpl. rewrite bool_decide_eq_true, list_elem_of_fmap.
  split; [intros (x & -> & Hx)|intros (x & Hx & <-)]; eauto.
Qed.

Lemma museum_exists_mono d d' m :
  (∀ x, x ∈ museums d → x ∈ museums d') →
  museum_exists d m = true → museum_exists d' m = true.
Proof.
  intros Hsub. destruct m as [m|]; [|done].
  rewrite !museum_exists_iff. intros (x & Hx & Hid). eauto.
Qed.

Lemma artwork_exists_ids d d' a :
  art_id <$> artworks d = art_id <$> artworks d' →
  artwork_exists d a = artwork_exists d' a.
Proof. destruct a as [a|]; [|done]. simpl. by intros ->. Qed.

Lemma exec_or_keep_fk st d : fk_ok d → fk_ok (exec_or_keep st d).
Proof.
  intros [Ha Hs]. unfold exec_or_keep.
  destruct st as [now i|i s|i|now name loc radius|m|now user art img]; simpl.
  - unfold insert_artwork.
    destruct (require _ _) as [[]|]; simpl; [|done].
    destruct (artwork_row_checks_dec d (new_artwork_row now i d)) as [Hc|[e Hc]];
      rewrite Hc; simpl; [|done].
    split; simpl.
    + apply Forall_app. split; [done|]. apply Forall_singleton.
      by apply artwork_row_checks_ok in Hc as (_ & _ & _ & ?).
    + eapply Forall_impl; [done|]. intros x. simpl.
      destruct (artwork_id x) as [a|]; [|done].
      rewrite !artwork_exists_iff. intros (r & Hr & Hid). exists r.
      split; [|done]. simpl. apply elem_of_app. by left.
  - unfold update_artwork. destruct (check_all d _) as [[]|] eqn:Hall; simpl; [|done].
    split; simpl.
    + apply Forall_fmap, Forall_forall. intros r Hr. simpl.
      unfold update_row. case_bool_decide as Hid.
      * assert (artwork_row_checks d (apply_set s r) = Ok tt) as Hc.
        { eapply check_all_ok; [done|].
          by apply list_elem_of_fmap_2, list_elem_of_filter. }
        by apply artwork_row_checks_ok in Hc as (_ & _ & _ & ?).
      * by eapply Forall_forall in Ha.
    + eapply Forall_impl; [done|]. intros x Hx. simpl.
      erewrite <- artwork_exists_ids; [exact Hx|]. simpl. by rewrite update_row_ids.
  - split; simpl.
    + apply Forall_forall. intros r [_ Hr]%list_elem_of_filter.
      by eapply Forall_forall in Ha.
    + apply Forall_fmap, Forall_forall. intros x Hx. simpl.
      eapply Forall_forall in Hs; [|done]. simpl in Hs.
      destruct (set_null_fields [i] x) as (_ & _ & _ & _ & ->).
      destruct (artwork_id x) as [a|]; [|done].
      case_bool_decide as Hin; [done|].
      apply artwork_exists_iff in Hs as (r & Hr & Hid).
      apply artwork_exists_iff. exists r. split; [|done]. simpl.
      apply list_elem_of_filter. split; [|done].
      intros Heq. apply Hin. apply list_elem_of_singleton. congruence.
  - unfold insert_museum. destruct (require _ _) as [[]|]; simpl; [|done].
    split; simpl; [|done].
    eapply Forall_impl; [done|]. intros r. simpl.
    apply museum_exists_mono. simpl. intros x Hx. apply elem_of_app. by left.
  - split; simpl.
    + apply Forall_forall. intros r [Hne Hr]%list_elem_of_filter.
      eapply Forall_forall in Ha; [|done]. simpl in Ha.
      destruct (museum_id r) as [m'|]; [|done].
      apply museum_exists_iff in Ha as (x & Hx & Hid).
      apply museum_exists_iff. exists x. split; [|done]. simpl.
      apply list_elem_of_filter. split; [|done]. congruence.
    + apply Forall_fmap, Forall_forall. intros x Hx. simpl.
      eapply Forall_forall in Hs; [|done]. simpl in Hs.
      destruct (set_null_fields
                  (art_id <$> filter (λ r, museum_id r = Some m) (artworks d)) x)
        as (_ & _ & _ & _ & ->).
      destruct (artwork_id x) as [a|]; [|done].
      case_bool_decide as Hin; [done|].
      apply artwork_exists_iff in Hs as (r & Hr & Hid).
      apply artwork_exists_iff. exists r. split; [|done]. simpl.
      apply list_elem_of_filter. split; [|done].
      intros Hm. apply Hin. rewrite <- Hid.
      by apply list_elem_of_fmap_2, list_elem_of_filter.
  - unfold insert_user_scan.
    destruct (require (bool_decide _) _) as [[]|]; simpl; [|done].
    destruct (artwork_exists d art) eqn:Hart; simpl; [|done].
    split; simpl; [done|].
    apply Forall_app. split; [done|]. by apply Forall_singleton.
Qed.

(** X1.  Referential integrity is an invariant of the schema: from a store
    in which every non-NULL [museum_id] and [artwork_id] names an existing
    row, every sequence of statements (those that fail included) leads to
    such a store again: the foreign keys reject dangling inserts and
    updates, ON DELETE CASCADE removes the artworks of a deleted museum,
    and ON DELETE SET NULL clears the scans of a deleted artwork. *)
Theorem referential_integrity_kept (sts : list statement) (d : db) :
  fk_ok d → fk_ok (run sts d).
Proof.
  revert d. induction sts as [|st sts IH]; intros d Hd; [done|].
  simpl. by apply IH, exec_or_keep_fk.
Qed.

Lemma sample_db_fk : fk_ok sample_db.
Proof. split; repeat (apply Forall_cons; split; [reflexivity|]); apply Forall_nil_2. Defined.

Lemma referential_integrity_kept_witness :
  fk_ok (run [DeleteMuseum 1; dangling_scan; DeleteArtwork 2] sample_db).
Proof.
  exact (referential_integrity_kept [DeleteMuseum 1; dangling_scan; DeleteArtwork 2]
           sample_db sample_db_fk).
Defined.

Lemma NoDup_fmap_filter {A B} (f : A → B) (P : A → Prop) `{∀ x, Decision (P x)}
    (l : list A) :
  NoDup (f <$> l) → NoDup (f <$> filter P l).
Proof.
  intros Hl. eapply sublist_NoDup; [done|]. apply fmap_sublist, sublist_filter.
Qed.

Lemma NoDup_snoc_fresh {B} (l : list B) (x : B) :
  x ∉ l → NoDup l → NoDup (l ++ [x]).
Proof.
  intros Hx Hl. apply NoDup_app. split; [done|]. split; [|apply NoDup_singleton].
  intros y Hy ->%list_elem_of_singleton. done.
Qed.

Lemma set_null_ids ids (l : list user_scan) :
  scan_id <$> (set_null ids <$> l) = scan_id <$> l.
Proof.
  rewrite <- list_fmap_compose. apply list_fmap_ext. intros k x _. simpl.
  by destruct (set_null_fields ids x) as (-> & _).
Qed.

Lemma exec_or_keep_pk st d : pk_ok d → pk_ok (exec_or_keep st d).
Proof.
  intros (Hm & Ha & Hs). unfold exec_or_keep.
  destruct st as [now i|i s|i|now name loc radius|m|now user art img]; simpl.
  - unfold insert_artwork. case_bool_decide as Hfresh; simpl; [|done].
    destruct (artwork_row_checks d _) as [[]|]; simpl; [|done].
    split; [done|]. split; [|done]. simpl. rewrite fmap_app.
    by apply NoDup_snoc_fresh.
  - unfold update_artwork. destruct (check_all d _) as [[]|]; simpl; [|done].
    split; [done|]. split; [|done]. simpl. by rewrite update_row_ids.
  - split; [done|]. split; simpl.
    + by apply NoDup_fmap_filter.
    + by rewrite set_null_ids.
  - unfold insert_museum. case_bool_decide as Hfresh; simpl; [|done].
    split; [|done]. simpl. rewrite fmap_app. by apply NoDup_snoc_fresh.
  - split; [|split]; simpl.
    + by apply NoDup_fmap_filter.
    + by apply NoDup_fmap_filter.
    + by rewrite set_null_ids.
  - unfold insert_user_scan. case_bool_decide as Hfresh; simpl; [|done].
    destruct (require (artwork_exists _ _) _) as [[]|]; simpl; [|done].
    split; [done|]. split; [done|]. simpl. rewrite fmap_app.
    by apply NoDup_snoc_fresh.
Qed.


Lemma sample_db_pk : pk_ok sample_db.
Proof.
  repeat split; simpl;
    repeat (apply NoDup_cons; split;
            [intros Hin; repeat (apply elem_of_cons in Hin as [Hin|Hin];
                                 [discriminate Hin|]);
             by apply elem_of_nil in Hin|]);
    apply NoDup_nil; exact I.
Defined.

Lemma sample_db_wf : db_wf sample_db.
Proof.
  repeat split; repeat (apply Forall_cons; split; [by vm_compute|]); apply Forall_nil_2.
Defined.


(* ===================================================================== *)
(** * The migration and the sample data *)
(* ===================================================================== *)

(** X3.  On the base schema the migration always succeeds.  It keeps the
    museums, the scans, the sequences and every artwork row with all its
    base columns, in order; and every existing row comes out unverified,
    with source ai_generated (not admin: the UPDATE finds no NULL to
    fill, since ADD COLUMN has given every row the DEFAULTs) and without a
    confidence score. *)
Theorem migration_keeps_rows (d0 : db0) :
  ∃ d1,
    migration_add_verification d0 = Ok d1 ∧
    museums d1 = museums0 d0 ∧ user_scans d1 = user_scans0 d0 ∧
    artworks_id_seq d1 = artworks0_id_seq d0 ∧
    length (artworks d1) = length (artworks0 d0) ∧
    (∀ k r, artworks d1 !! k = Some r →
            ∃ r0, artworks0 d0 !! k = Some r0 ∧
                  art_id r = art0_id r0 ∧ museum_id r = art0_museum_id r0 ∧
                  title r = art0_title r0 ∧ artist r = art0_artist r0 ∧
                  description_json r = art0_description_json r0 ∧
                  image_url r = art0_image_url r0 ∧
                  art_embedding r = art0_embedding r0 ∧
                  art_created_at r = art0_created_at r0 ∧
                  art_updated_at r = art0_updated_at r0 ∧
                  is_verified r = Some false ∧
                  source r = Some "ai_generated"%string ∧
                  confidence_score r = None) ∧
    Forall (λ r, source r ≠ Some "admin"%string) (artworks d1).
Proof.
  destruct (migration_add_verification_ok d0) as (d1 & Hmig & Hrows & Hmus & Hscans).
  exists d1. split; [done|]. split; [done|]. split; [done|].
  split.
  { unfold migration_add_verification in Hmig.
    destruct (add_constraint "check_source_values" _ _) as [[]|]; simpl in Hmig; [|done].
    destruct (add_constraint "check_confidence_range" _ _) as [[]|]; simpl in Hmig;
      [|done].
    by injection Hmig as <-. }
  split; [by rewrite Hrows, length_fmap|]. split.
  - intros k r. rewrite Hrows, list_lookup_fmap.
    destruct (artworks0 d0 !! k) as [r0|]; simpl; [|done].
    intros [= <-]. exists r0. by repeat split.
  - apply Forall_forall. intros r Hr.
    destruct (migrated_rows d0 d1 r Hmig Hr) as (_ & -> & _). done.
Qed.

Lemma migration_keeps_rows_witness :
  ∃ d1, migration_add_verification legacy_db0 = Ok d1 ∧
        Forall (λ r, source r ≠ Some "admin"%string) (artworks d1) ∧
        length (artworks d1) = 1%nat.
Proof.
  destruct (migration_keeps_rows legacy_db0)
    as (d1 & Hmig & _ & _ & _ & Hlen & _ & Hsrc).
  exists d1. split; [exact Hmig|]. split; [exact Hsrc|exact Hlen].
Defined.

Lemma insert_museum_dec now name loc radius d :
  let m := {| mus_id := museums_id_seq d; mus_name := name; location := loc;
              geofence_radius_meters := default 100 radius;
              mus_created_at := Some now; mus_updated_at := Some now |} in
  ((museums_id_seq d ∉ mus_id <$> museums d) ∧
   insert_museum now name loc radius d
   = Ok {| museums := museums d ++ [m]; artworks := artworks d;
           user_scans := user_scans d;
           museums_id_seq := museums_id_seq d + 1;
           artworks_id_seq := artworks_id_seq d;
           user_scans_id_seq := user_scans_id_seq d |}) ∨
  (museums_id_seq d ∈ mus_id <$> museums d ∧
   insert_museum now name loc radius d = Err (unique_violation "museums_pkey")).
Proof.
  intros m. unfold insert_museum. simpl. case_bool_decide as Hfresh; simpl.
  - by left.
  - by right.
Qed.



(* ===================================================================== *)
(** * Deletes *)
(* ===================================================================== *)

Lemma filter_all {A} (P : A → Prop) `{∀ x, Decision (P x)} (l : list A) :
  Forall P l → filter P l = l.
Proof.
  induction 1 as [|x l Hx Hl IH]; [done|].
  by rewrite filter_cons_True, IH.
Qed.

Lemma filter_none {A} (P : A → Prop) `{∀ x, Decision (P x)} (l : list A) :
  Forall (λ x, ¬ P x) l → filter P l = [].
Proof.
  induction 1 as [|x l Hx Hl IH]; [done|].
  by rewrite filter_cons_False, IH.
Qed.

Lemma set_null_nil s : set_null [] s = s.
Proof.
  apply set_null_unreferenced. intros a _ Hin. by apply elem_of_nil in Hin.
Qed.

Lemma set_null_all ids (l : list user_scan) :
  Forall (λ s, ∀ a, artwork_id s = Some a → a ∉ ids) l → set_null ids <$> l = l.
Proof.
  intros Hl. rewrite <- (list_fmap_id l) at 2. apply Forall_fmap_ext_1.
  eapply Forall_impl; [done|]. intros s Hs. by apply set_null_unreferenced.
Qed.

Lemma set_null_set_null ids ids' s :
  set_null ids (set_null ids' s) = set_null (ids ++ ids') s.
Proof.
  unfold set_null at 2 3. destruct (artwork_id s) as [a|] eqn:Ha.
  - case_bool_decide as Hin'.
    + rewrite bool_decide_eq_true_2 by (apply elem_of_app; by right).
      by apply set_null_unreferenced.
    + unfold set_null. rewrite Ha.
      case_bool_decide as Hin.
      * by rewrite bool_decide_eq_true_2 by (apply elem_of_app; by left).
      * rewrite bool_decide_eq_false_2; [done|].
        by intros [?|?]%elem_of_app.
  - apply set_null_unreferenced. by rewrite Ha.
Qed.

Lemma set_null_ext ids ids' s :
  (∀ a, a ∈ ids ↔ a ∈ ids') → set_null ids s = set_null ids' s.
Proof.
  intros Hiff. unfold set_null. destruct (artwork_id s) as [a|]; [|done].
  by rewrite (bool_decide_ext _ _ (Hiff a)).
Qed.

(** X5.  Deleting is idempotent, and deleting what is not there changes
    nothing: a second DELETE of the same artwork, or of the same museum,
    leaves the store as the first one left it; and in a store with
    referential integrity, a DELETE of an artwork id or a museum id that
    is not in its table leaves the whole store, scans included, as it
    was. *)
Theorem delete_idempotent (d : db) :
  (∀ a, delete_artwork a (delete_artwork a d) = delete_artwork a d) ∧
  (∀ m, delete_museum m (delete_museum m d) = delete_museum m d) ∧
  (fk_ok d →
   (∀ a, a ∉ art_id <$> artworks d → delete_artwork a d = d) ∧
   (∀ m, m ∉ mus_id <$> museums d → delete_museum m d = d)).
Proof.
  split; [|split].
  - intros a. unfold delete_artwork. simpl. f_equal.
    + rewrite list_filter_filter. apply list_filter_iff. tauto.
    + rewrite <- list_fmap_compose. apply list_fmap_ext. intros k s _. simpl.
      rewrite set_null_set_null. apply set_null_ext. intros x.
      rewrite elem_of_app. tauto.
  - intros m. unfold delete_museum. simpl. f_equal.
    + rewrite list_filter_filter. apply list_filter_iff. tauto.
    + rewrite list_filter_filter. apply list_filter_iff. tauto.
    + rewrite list_filter_filter.
      rewrite (filter_none (λ r, museum_id r = Some m ∧ museum_id r ≠ Some m)).
      2:{ apply Forall_forall. intros r _. tauto. }
      simpl. rewrite <- list_fmap_compose. apply list_fmap_ext. intros k s _.
      simpl. apply set_null_nil.
  - intros [Ha Hs]. split.
    + intros a Hmiss. destruct d as [ms arts scans s1 s2 s3].
      unfold delete_artwork. simpl in *. f_equal.
      * apply filter_all, Forall_forall. intros r Hr Heq. apply Hmiss.
        rewrite <- Heq. by apply list_elem_of_fmap_2.
      * apply set_null_all. eapply Forall_impl; [done|]. intros s Hex x Hx.
        simpl in Hex. rewrite Hx in Hex. apply bool_decide_eq_true_1 in Hex.
        intros ->%list_elem_of_singleton. done.
    + intros m Hmiss. destruct d as [ms arts scans s1 s2 s3].
      unfold delete_museum. simpl in *.
      assert (Hnone : Forall (λ r, museum_id r ≠ Some m) arts).
      { eapply Forall_impl; [done|]. intros r Hex Hm. simpl in Hex.
        rewrite Hm in Hex. by apply bool_decide_eq_true_1 in Hex. }
      f_equal.
      * apply filter_all, Forall_forall. intros x Hx Heq. apply Hmiss.
        rewrite <- Heq. by apply list_elem_of_fmap_2.
      * by apply filter_all.
      * rewrite (filter_none (λ r, museum_id r = Some m)).
        2:{ eapply Forall_impl; [done|]. by intros r Hr. }
        simpl. rewrite <- (list_fmap_id scans) at 2. apply list_fmap_ext.
        intros k s _. apply set_null_nil.
Qed.

Lemma delete_idempotent_witness :
  delete_artwork 99 sample_db = sample_db ∧ delete_museum 99 sample_db = sample_db.
Proof.
  destruct (delete_idempotent sample_db) as (_ & _ & Hmissing).
  destruct (Hmissing sample_db_fk) as [Ha Hm].
  split.
  - apply Ha. intros Hin. repeat (apply elem_of_cons in Hin as [Hin|Hin];
                                   [discriminate Hin|]).
    by apply elem_of_nil in Hin.
  - apply Hm. intros Hin. repeat (apply elem_of_cons in Hin as [Hin|Hin];
                                   [discriminate Hin|]).
    by apply elem_of_nil in Hin.
Defined.

Lemma NoDup_fmap_eq {A B} (f : A → B) (l : list A) x y :
  NoDup (f <$> l) → x ∈ l → y ∈ l → f x = f y → x = y.
Proof.
  induction l as [|z l IH]; simpl; [by intros _ ?%elem_of_nil|].
  rewrite NoDup_cons. intros [Hz Hl] [-> |Hx]%elem_of_cons [-> |Hy]%elem_of_cons Heq;
    auto.
  - exfalso. apply Hz. rewrite Heq. by apply list_elem_of_fmap_2.
  - exfalso. apply Hz. rewrite <- Heq. by apply list_elem_of_fmap_2.
Qed.

Lemma filter_iff_on {A} (P1 P2 : A → Prop)
    `{!∀ x, Decision (P1 x), !∀ x, Decision (P2 x)} (l : list A) :
  (∀ x, x ∈ l → P1 x ↔ P2 x) → filter P1 l = filter P2 l.
Proof.
  induction l as [|a l IH]; intros Hiff; [done|].
  assert (Hl : filter P1 l = filter P2 l).
  { apply IH. intros x Hx. apply Hiff. by right. }
  destruct (decide (P1 a)) as [Ha|Ha].
  - rewrite !filter_cons_True; [by rewrite Hl|by apply Hiff; [left|]|done].
  - rewrite !filter_cons_False; [done| |done].
    intros Ha'. apply Ha, Hiff; [by left|done].
Qed.

Lemma delete_artworks_spec ids d :
  delete_artworks ids d
  = {| museums := museums d;
       artworks := filter (λ r, art_id r ∉ ids) (artworks d);
       user_scans := set_null ids <$> user_scans d;
       museums_id_seq := museums_id_seq d;
       artworks_id_seq := artworks_id_seq d;
       user_scans_id_seq := user_scans_id_seq d |}.
Proof.
  revert d. induction ids as [|a ids IH]; intros d.
  - destruct d as [ms arts scans s1 s2 s3]. unfold delete_artworks. simpl. f_equal.
    + symmetry. apply filter_all, Forall_forall. intros r _. apply not_elem_of_nil.
    + rewrite <- (list_fmap_id scans) at 1. apply list_fmap_ext.
      intros k s _. symmetry. apply set_null_nil.
  - change (delete_artworks (a :: ids) d)
      with (delete_artworks ids (delete_artwork a d)).
    rewrite IH. simpl. f_equal.
    + rewrite list_filter_filter. apply list_filter_iff. intros r.
      rewrite not_elem_of_cons. tauto.
    + rewrite <- list_fmap_compose. apply list_fmap_ext. intros k s _. simpl.
      rewrite set_null_set_null. apply set_null_ext. intros x.
      rewrite elem_of_app, list_elem_of_singleton, elem_of_cons. tauto.
Qed.

(** X6.  The cascade is the one-by-one deletion: where the artwork ids are
    unique, deleting a museum gives the same store as first deleting each
    of its artworks with its own DELETE (which sets the scans of that
    artwork to NULL) and then deleting the museum. *)
Theorem cascade_is_one_by_one (m : Z) (d : db) :
  NoDup (art_id <$> artworks d) →
  delete_museum m d
  = delete_museum m
      (delete_artworks (art_id <$> filter (λ r, museum_id r = Some m) (artworks d)) d).
Proof.
  intros Hpk. rewrite delete_artworks_spec.
  set (ids := art_id <$> filter (λ r, museum_id r = Some m) (artworks d)).
  assert (Hids : ∀ r, r ∈ artworks d → (art_id r ∈ ids ↔ museum_id r = Some m)).
  { intros r Hr. unfold ids. rewrite list_elem_of_fmap. split.
    - intros (g & Hid & [Hm Hg]%list_elem_of_filter).
      by rewrite (NoDup_fmap_eq art_id (artworks d) r g Hpk Hr Hg Hid).
    - intros Hm. exists r. split; [done|]. by apply list_elem_of_filter. }
  unfold delete_museum. simpl. f_equal.
  - rewrite list_filter_filter. apply filter_iff_on. intros r Hr.
    rewrite (Hids r Hr). tauto.
  - rewrite list_filter_filter.
    rewrite (filter_none (λ r, museum_id r = Some m ∧ art_id r ∉ ids)).
    2:{ apply Forall_forall. intros r Hr [Hm Hnot]. apply Hnot. by apply Hids. }
    simpl. rewrite <- list_fmap_compose. apply list_fmap_ext. intros k s _.
    simpl. by rewrite set_null_nil.
Qed.

Lemma cascade_is_one_by_one_witness :
  delete_museum 1 sample_db = delete_museum 1 (delete_artworks [1] sample_db).
Proof.
  exact (cascade_is_one_by_one 1 sample_db (proj1 (proj2 sample_db_pk))).
Defined.

(* ===================================================================== *)
(** * Properties of the screens *)
(* ===================================================================== *)

Section ScanHandler.
Import Frontend Screens.

(** X7.  A run of the scan handler ([handleScan], [takePicture]), whatever
    its awaits do: it leaves the state as it was (a guard returned) or with
    [isScanning] false (the [finally]); it never changes
    [locationPermission]; it shows at most one alert and posts at most one
    scan; a scan is posted only with the camera ready, the camera
    permission granted and the location not refused, and carries the
    photo, the position and the user 'anonymous'; no alert is shown exactly
    when every await succeeds with an ok response, and then the result is
    the data and is shown; and after an alert the result and its
    visibility are what they were. *)
Theorem scan_handler_outcome (haptics : bool) (env : scan_env) (st : screen_state) :
  let st' := (scan_handler haptics env st).1 in
  let events := (scan_handler haptics env st).2 in
  (st' = st ∨ isScanning st' = false) ∧
  locationPermission st' = locationPermission st ∧
  (length (filter (λ e, is_alert e = true) events) ≤ 1)%nat ∧
  (length (filter (λ e, is_post e = true) events) ≤ 1)%nat ∧
  (∀ e, e ∈ events → is_post e = true →
     camera_ready env = true ∧ permission env = Some true ∧
     locationPermission st ≠ Some false ∧
     ∃ uri latitude longitude,
       photo env = Resolved (Some uri) ∧
       position env = Resolved (latitude, longitude) ∧
       e = ScanPosted uri latitude longitude "anonymous") ∧
  (filter (λ e, is_alert e = true) events = [] ↔
     camera_ready env = true ∧ permission env = Some true ∧
     locationPermission st ≠ Some false ∧
     ∃ uri pos response data,
       photo env = Resolved (Some uri) ∧ position env = Resolved pos ∧
       scan_response env = Resolved response ∧ ok response = true ∧
       json response = Resolved data ∧
       st' = {| locationPermission := locationPermission st; isScanning := false;
                result := Some data; showResult := true |}) ∧
  (filter (λ e, is_alert e = true) events ≠ [] →
     result st' = result st ∧ showResult st' = showResult st).
Proof.
  unfold scan_handler, scan_attempt.
  destruct env as [c p ph po sr te]; simpl.
  destruct c; [|simpl; split_and!; try done; try (by left); try (simpl; lia);
                 [intros e He; apply list_elem_of_singleton in He as ->; done
                 |split; [done|intros (? & _); done]]].
  destruct p as [[]|]; simpl.
  2,3: split_and!; try done; try (by left); try (simpl; lia);
    [intros e He; apply list_elem_of_singleton in He as ->; done
    |split; [done|intros (_ & ? & _); done]].
  case_bool_decide as Hl; simpl.
  { split_and!; try done; try (by left); try (simpl; lia);
    [intros e He; apply list_elem_of_singleton in He as ->; done
    |split; [done|intros (_ & _ & ? & _); done]]. }
  destruct haptics, ph as [[uri|]|t], po as [[lat lon]|t'],
    sr as [[o stxt [data|t'']]|t''];
    try destruct o; simpl.
  all: split_and!; try done; try (by right); try (simpl; lia).
  all: try (intros e He; repeat (apply elem_of_cons in He as [->|He]); try done;
            try (by apply elem_of_nil in He);
            intros _; split_and!; try done; by eexists _, _, _).
  all: try (split; [intros Hnil; try discriminate Hnil; split_and!; try done;
                     by eexists _, _, _, _
                   |intros (_ & _ & _ & ? & ? & ? & ? & ? & ? & ? & ? & ? & ?); simplify_eq; done]).
Qed.

Lemma scan_handler_outcome_witness :
  filter (λ e, is_alert e = true) (handleScan ready_env idle_screen).2 = [] ∧
  result (takePicture failing_env idle_screen).1 = None.
Proof.
  split.
  - destruct (scan_handler_outcome true ready_env idle_screen)
      as (_ & _ & _ & _ & _ & Hiff & _).
    apply Hiff. split_and!; try done. by eexists _, _, _, _.
  - destruct (scan_handler_outcome false failing_env idle_screen)
      as (_ & _ & _ & _ & _ & _ & Hkeep).
    by apply Hkeep.
Defined.

(** X8.  [takePicture] is [handleScan] without the haptics: the two leave
    the same state and cause the same events once the haptic calls are
    taken out.  [handleScan] gives the impact feedback exactly when both
    guards pass, and the success feedback exactly when it shows no alert. *)
Theorem takePicture_is_handleScan_without_haptics (env : scan_env)
    (st : screen_state) :
  takePicture env st
  = ((handleScan env st).1,
     filter (λ e, is_haptic e = false) (handleScan env st).2) ∧
  (ImpactHaptic ∈ (handleScan env st).2 ↔
     camera_ready env = true ∧ permission env = Some true ∧
     locationPermission st ≠ Some false) ∧
  (SuccessHaptic ∈ (handleScan env st).2 ↔
     filter (λ e, is_alert e = true) (handleScan env st).2 = []).
Proof.
  unfold takePicture, handleScan, scan_handler, scan_attempt.
  destruct env as [c p ph po sr te]; simpl.
  destruct c; simpl.
  2:{ split_and!; [done| |].
      - rewrite list_elem_of_singleton. split; [done|]. by intros (? & _).
      - rewrite list_elem_of_singleton. done. }
  destruct p as [[]|]; simpl.
  2,3: split_and!; [done| |];
    rewrite list_elem_of_singleton; (split; [done|]);
    try (by intros (_ & ? & _)); done.
  case_bool_decide as Hl; simpl.
  { split_and!; [done| |]; rewrite list_elem_of_singleton; (split; [done|]);
      try (by intros (_ & _ & ?)); done. }
  destruct ph as [[uri|]|t], po as [[lat lon]|t'], sr as [[o stxt [data|t'']]|t''];
    try destruct o; simpl.
  all: split_and!; [done| |].
  all: try (split; [done|intros _; by left]).
  all: split; intros H; try discriminate H;
    repeat (apply elem_of_cons in H as [H|H]; try discriminate H);
    try (by apply elem_of_nil in H); try done.
  all: rewrite !elem_of_cons; tauto.
Qed.

Lemma takePicture_is_handleScan_without_haptics_witness :
  ImpactHaptic ∈ (handleScan failing_env idle_screen).2 ∧
  SuccessHaptic ∈ (handleScan ready_env idle_screen).2.
Proof.
  split.
  - by apply (takePicture_is_handleScan_without_haptics failing_env idle_screen).
  - by apply (takePicture_is_handleScan_without_haptics ready_env idle_screen).
Defined.

End ScanHandler.

Section Reports.
Import Frontend Screens.

Lemma ReportLink_in_ResultCard visible a sim h e els :
  ResultCard visible (Some a) sim h = Some els →
  ReportLink e ∈ els →
  ∃ f, h = Some f ∧ e = f (id a) ∧ isVerified a = false.
Proof.
  unfold ResultCard, when. intros [= <-] Hin.
  destruct (isVerified a) eqn:Hv, (image_url a) as [u|],
    (description_style a) as [st|], sim as [q|], h as [f|];
    simpl in Hin;
    repeat match type of Hin with
           | context [if ?b then _ else _] => destruct b
           end;
    simpl in Hin;
    repeat (apply elem_of_cons in Hin as [Hin|Hin]; [try discriminate Hin|]);
    try (by apply elem_of_nil in Hin);
    injection Hin as ->; by exists f.
Qed.

(** X9.  From the report link to the request: a button of the alert that
    the report link of the scan screen's card opens, if it has an action,
    is not the cancel button and calls [submitReport] with the id of the
    displayed artwork and one of the issue types wrong_title, wrong_artist
    and not_artwork.  That call first posts one report with the id in
    decimal, the user 'anonymous', the issue type and an empty
    description, then shows exactly one alert, the thanks exactly for an ok
    response.  Distinct ids give distinct [artwork_id] fields. *)
Theorem report_names_displayed_artwork (showResult : bool) (r : ScanResult)
    (a : Artwork) (els : list element) (e : effect) (b : alert_button)
    (i : Z) (issue : string) (response : awaited bool) :
  artwork r = Some a →
  scan_index_ResultCard showResult (Some r) = Some els →
  ReportLink e ∈ els →
  b ∈ buttons_of e →
  onPress b = Some (i, issue) →
  i = id a ∧ cancel b = false ∧
  issue ∈ ["wrong_title"; "wrong_artist"; "not_artwork"]%string ∧
  filter (λ ev, is_post ev = true) (submitReport i issue response)
  = [ReportPosted (pretty (id a)) "anonymous" issue ""] ∧
  head (submitReport i issue response)
  = Some (ReportPosted (pretty (id a)) "anonymous" issue "") ∧
  length (filter (λ ev, is_alert ev = true) (submitReport i issue response)) = 1%nat ∧
  (AlertShown "Thank You" "Your report has been submitted. We will review it."
     ∈ submitReport i issue response ↔ response = Resolved true) ∧
  (∀ a' : Artwork, pretty (id a') = pretty (id a) → id a' = id a).
Proof.
  intros Hr Hcard Hin Hb Hpress.
  unfold scan_index_ResultCard in Hcard. rewrite Hr in Hcard.
  destruct (ReportLink_in_ResultCard _ _ _ _ _ _ Hcard Hin) as (f & Hf & -> & _).
  assert (f = handleReportIssue) as ->.
  { destruct (negb _); by simplify_eq. }
  unfold handleReportIssue, buttons_of, report_buttons in Hb.
  rewrite !elem_of_cons in Hb.
  destruct Hb as [->|[->|[->|[->|Hb]]]]; [..|by apply elem_of_nil in Hb];
    simpl in Hpress; simplify_eq.
  all: split_and!; try done.
  all: try (rewrite !elem_of_cons; tauto).
  all: try (by destruct response as [[]|]).
  all: try (intros a' Ha'; by apply (inj pretty)).
  all: unfold submitReport; destruct response as [[]|];
    rewrite !elem_of_cons, elem_of_nil;
    (split; [intros H; decompose [or] H; (discriminate || done)
            |intros H; try discriminate H; by right; left]).
Qed.

Lemma report_names_displayed_artwork_witness :
  filter (λ ev, is_post ev = true) (submitReport 7 "wrong_artist" (Resolved false))
  = [ReportPosted "7" "anonymous" "wrong_artist" ""].
Proof.
  refine (proj1 (proj2 (proj2 (proj2
    (report_names_displayed_artwork true
       (scan_result community_result unknown_canvas) unknown_canvas
       (default [] (scan_index_ResultCard true
                      (Some (scan_result community_result unknown_canvas))))
       (ReportIssueAlert 7)
       {| text := "Wrong Artist"; cancel := false;
          onPress := Some (7, "wrong_artist"%string) |}
       7 "wrong_artist" (Resolved false) eq_refl eq_refl _ _ eq_refl))))).
  - vm_compute. do 4 right. left.
  - vm_compute. right. left.
Defined.

End Reports.

Section Overlays.
Import Frontend Screens.

Lemma scan_index_ResultCard_Some showResult r :
  is_Some (scan_index_ResultCard showResult (Some r)) ↔ is_Some (artwork r).
Proof.
  unfold scan_index_ResultCard. destruct (artwork r) as [a|]; simpl.
  - split; intros _; eauto.
  - done.
Qed.

(** X10.  What the scan screen of [app/scan/index.tsx] lays over the
    camera.  With a result, nothing at all is laid over it exactly when the
    result has no artwork and its status is not 'not_art'; both the card
    and the "Not an Artwork" modal are, exactly when a 'not_art' result
    carries an artwork; there are never more than these two, and each is
    visible as [showResult] says.  Without a result, and after any of the
    close actions, nothing is laid over the camera, and the close actions
    leave [isScanning] and [locationPermission] alone. *)
Theorem overlays_of_result (st : screen_state) :
  (∀ r, result st = Some r →
     (overlays st = [] ↔ artwork r = None ∧ status r ≠ not_art) ∧
     (length (overlays st) = 2%nat ↔ is_Some (artwork r) ∧ status r = not_art) ∧
     (length (overlays st) ≤ 2)%nat) ∧
  (result st = None → overlays st = []) ∧
  (∀ o, o ∈ overlays st → overlay_visible o = showResult st) ∧
  overlays (onClose st) = [] ∧
  isScanning (onClose st) = isScanning st ∧
  locationPermission (onClose st) = locationPermission st.
Proof.
  split_and!; try done.
  - intros r Hr. unfold overlays. rewrite Hr.
    pose proof (scan_index_ResultCard_Some (showResult st) r) as Hcard.
    destruct (scan_index_ResultCard (showResult st) (Some r)) as [els|],
      (artwork r) as [a|]; simpl.
    all: try (exfalso; apply (is_Some_None (A:=Artwork)), Hcard; eauto; fail).
    all: try (exfalso; apply (is_Some_None (A:=list element)), Hcard; eauto; fail).
    all: unfold block; case_bool_decide as Hs; simpl; split_and!; try lia.
    all: try (split; [intros H; discriminate H|intros [H1 H2]; done]).
    all: try (split; [intros H; done|intros [[? H1] H2]; done]).
    all: try (split; [done|intros [H1 H2]; done]).
    all: split; [done|]; intros _; split; eauto.
  - intros Hr. unfold overlays. by rewrite Hr.
  - intros o. unfold overlays. destruct (result st) as [r|]; [|by intros ?%elem_of_nil].
    rewrite elem_of_app. intros [Ho|Ho].
    + destruct (scan_index_ResultCard _ _); [|by apply elem_of_nil in Ho].
      by apply list_elem_of_singleton in Ho as ->.
    + unfold block in Ho. case_bool_decide; [|by apply elem_of_nil in Ho].
      by apply list_elem_of_singleton in Ho as ->.
Qed.

Lemma overlays_of_result_witness :
  overlays (showing (bare_result ai_analysis)) = [] ∧
  length (overlays (showing not_art_with_artwork)) = 2%nat.
Proof.
  split.
  - by apply (proj1 (overlays_of_result (showing (bare_result ai_analysis)))
                (bare_result ai_analysis) eq_refl).
  - apply (proj1 (overlays_of_result (showing not_art_with_artwork))
             not_art_with_artwork eq_refl).
    split; [by eexists|done].
Defined.

End Overlays.

Section Onboarding.
Import Frontend Screens.

(** X11.  The onboarding flag round trip.  After "Enter Museum" with a
    working store the layout shows the main stack, at once and on every
    later launch that can read the store.  When the store cannot be
    written the press changes nothing.  A launch never stays on the
    loading view; it shows the main stack exactly when the store can be
    read and holds 'true' under 'onboarding_complete', and the onboarding
    flow otherwise; no other key of the store matters. *)
Theorem onboarding_round_trip (s : gmap string string)
    (isOnboardingComplete : option bool) (readable : bool) :
  RootLayout (handleEnterMuseum true s isOnboardingComplete).2 = MainStack ∧
  launch true (handleEnterMuseum true s isOnboardingComplete).1 = MainStack ∧
  handleEnterMuseum false s isOnboardingComplete = (s, isOnboardingComplete) ∧
  launch readable s ≠ Loading ∧
  (launch readable s = MainStack ↔
     readable = true ∧ s !! "onboarding_complete"%string = Some "true"%string) ∧
  (launch readable s = OnboardingFlow ↔
     readable = false ∨ s !! "onboarding_complete"%string ≠ Some "true"%string) ∧
  (∀ k v, k ≠ "onboarding_complete"%string →
     launch readable (<[k := v]> s) = launch readable s) ∧
  (∀ k, k ≠ "onboarding_complete"%string →
     launch readable (delete k s) = launch readable s).
Proof.
  unfold launch, handleEnterMuseum, getItem, checkOnboardingStatus, RootLayout,
    onboarding_key. simpl.
  split_and!; try done.
  - rewrite lookup_insert_eq. by rewrite bool_decide_eq_true_2.
  - destruct readable; [|done]. by case_bool_decide.
  - destruct readable.
    + case_bool_decide; split; try done. by intros [_ ?].
    + split; [done|]. by intros [? _].
  - destruct readable.
    + case_bool_decide; split; try done.
      * by intros [?|?].
      * intros _. by right.
    + split; [|done]. intros _. by left.
  - intros k v Hk. destruct readable; [|done]. by rewrite lookup_insert_ne.
  - intros k Hk. destruct readable; [|done]. by rewrite lookup_delete_ne.
Qed.

Lemma onboarding_round_trip_witness :
  launch true (<["theme" := "dark"]> (<["onboarding_complete" := "true"]> ∅))%string
  = MainStack ∧
  launch true (<["onboarding_complete" := "yes"]> ∅)%string = OnboardingFlow.
Proof.
  split.
  - apply (onboarding_round_trip
             (<["theme" := "dark"]> (<["onboarding_complete" := "true"]> ∅))%string
             None true).
    split; [done|]. by vm_compute.
  - apply (onboarding_round_trip (<["onboarding_complete" := "yes"]> ∅)%string
             None true).
    right. by vm_compute.
Defined.

Lemma handleNext_range pagerRef page :
  0 ≤ page ≤ 3 → 0 ≤ handleNext pagerRef page ≤ 3.
Proof.
  intros Hp. unfold handleNext. destruct pagerRef; [|done].
  destruct (Z.ltb_spec (page + 1) 4); lia.
Qed.

Lemma page_step_range pagerRef page a :
  0 ≤ page ≤ 3 → on_a_page a → 0 ≤ page_step pagerRef page a ≤ 3.
Proof.
  intros Hp Ha. destruct a as [|status|position]; simpl.
  - by apply handleNext_range.
  - unfold handleCameraPermission. case_bool_decide; [|done].
    by apply handleNext_range.
  - exact Ha.
Qed.

Lemma handleNext_iter n :
  Nat.iter n (handleNext true) 0 = Z.min (Z.of_nat n) 3.
Proof.
  induction n as [|n IH]; [done|].
  rewrite Nat.iter_succ, IH. unfold handleNext.
  destruct (Z.ltb_spec (Z.min (Z.of_nat n) 3 + 1) 4); lia.
Qed.

(** X12.  The onboarding pager stays on one of its four pages: from a page
    0..3, after any presses of Continue and of Enable Camera (whatever the
    permission answer) and any swipes onto a page, the current page is
    again 0..3, and exactly the indicator of that page is active.
    Continue on the last page does nothing, so n presses from the first
    page lead to page min(n, 3); without the pager ref Continue does
    nothing; and a refused camera permission keeps the page. *)
Theorem onboarding_page_in_range (pagerRef : bool) (actions : list page_action)
    (page : Z) :
  0 ≤ page ≤ 3 →
  Forall on_a_page actions →
  0 ≤ foldl (page_step pagerRef) page actions ≤ 3 ∧
  (∀ i : nat, indicators (foldl (page_step pagerRef) page actions) !! i = Some true
              ↔ Z.of_nat i = foldl (page_step pagerRef) page actions) ∧
  length (indicators (foldl (page_step pagerRef) page actions)) = 4%nat ∧
  handleNext pagerRef 3 = 3 ∧
  handleNext false page = page ∧
  (∀ n, Nat.iter n (handleNext true) 0 = Z.min (Z.of_nat n) 3) ∧
  (∀ status, status ≠ "granted"%string →
             handleCameraPermission pagerRef status page = page).
Proof.
  intros Hp Ha.
  assert (Hrange : 0 ≤ foldl (page_step pagerRef) page actions ≤ 3).
  { revert page Hp. induction Ha as [|a actions Ha _ IH]; intros page Hp; [done|].
    simpl. apply IH. by apply page_step_range. }
  split_and!; try done; try lia.
  - intros i. set (p := foldl _ _ _) in *.
    assert (p = 0 ∨ p = 1 ∨ p = 2 ∨ p = 3) as [-> |[-> |[-> | ->]]] by lia;
      destruct i as [|[|[|[|i]]]]; simpl; split; intros H; try done; try lia.
  - by destruct pagerRef.
  - apply handleNext_iter.
  - intros status Hs. unfold handleCameraPermission. by case_bool_decide.
Qed.

Lemma onboarding_page_in_range_witness :
  0 ≤ foldl (page_step true) 0
        [PressContinue; PressEnableCamera "denied"; Swipe 3; PressContinue] ≤ 3.
Proof.
  apply (onboarding_page_in_range true
           [PressContinue; PressEnableCamera "denied"; Swipe 3; PressContinue] 0).
  - lia.
  - repeat (apply Forall_cons; split; [simpl; try lia; exact I|]). apply Forall_nil_2.
Defined.

End Onboarding.

Section Cards.
Import Frontend Screens.



End Cards.

Section ModalReport.
Import Frontend Screens.

Lemma modal_details_no_report a e :
  (ModalReportButton e ∉ modal_image a) ∧
  (ModalReportButton e ∉ modal_similarity a) ∧
  (ModalReportButton e ∉ modal_confidence a).
Proof.
  unfold modal_image, modal_similarity, modal_confidence, when. split_and!.
  - destruct (image_url a) as [u|]; [|apply not_elem_of_nil].
    destruct (_ && _); [|apply not_elem_of_nil].
    by intros ?%list_elem_of_singleton.
  - destruct (similarity a) as [q|]; [|apply not_elem_of_nil].
    intros ?%list_elem_of_singleton. by destruct (truthy_number _).
  - destruct (confidence a) as [c|]; [|apply not_elem_of_nil].
    destruct (truthy_string _); [|apply not_elem_of_nil].
    by intros ?%list_elem_of_singleton.
Qed.

Lemma modal_report_button a e :
  ModalReportButton e ∈ modal_report a ↔ e = reportIssue (id a) ∧ id a ≠ 0.
Proof.
  unfold modal_report. rewrite list_elem_of_singleton.
  case_bool_decide as Hid; split.
  - done.
  - by intros [_ ?].
  - by intros [= ->].
  - by intros [-> _].
Qed.

(** X14.  The report button of the result modal of [ScanScreen.tsx].  For a
    result with an artwork, the modal holds a report button exactly when
    the artwork's id is not 0 and the status is 'community_result' or
    'ai_analysis', or 'match_found' with an artwork that is not verified;
    the button reports the displayed artwork.  So a 'verified_result' and a
    'not_art' result never offer the report, whatever [is_verified] says.
    For a 'match_found' result with a non-zero id, this modal and the card
    of [app/scan/index.tsx] offer the report for the same artworks. *)
Theorem modal_report_offered (r : ScanResult) (a : Artwork) :
  artwork r = Some a →
  (∀ e, ModalReportButton e ∈ ScanScreen_modal (Some r) ↔
        e = reportIssue (id a) ∧ id a ≠ 0 ∧
        (status r = community_result ∨ status r = ai_analysis ∨
         (status r = match_found ∧ truthy_bool (is_verified a) = false))) ∧
  (status r = verified_result ∨ status r = not_art →
   ∀ e, ModalReportButton e ∉ ScanScreen_modal (Some r)) ∧
  (status r = match_found → id a ≠ 0 →
   existsb is_ModalReport (ScanScreen_modal (Some r))
   = offers_report (scan_index_ResultCard true (Some r))).
Proof.
  intros Hr.
  assert (Hchar : ∀ e, ModalReportButton e ∈ ScanScreen_modal (Some r) ↔
        e = reportIssue (id a) ∧ id a ≠ 0 ∧
        (status r = community_result ∨ status r = ai_analysis ∨
         (status r = match_found ∧ truthy_bool (is_verified a) = false))).
  { intros e.
    destruct (modal_details_no_report a e) as (Himg & Hsim & Hconf).
    pose proof (modal_report_button a e) as Hrep.
    unfold ScanScreen_modal, verified_block, community_block, ai_analysis_block,
      not_art_block, block. rewrite Hr.
    destruct (status r), (truthy_bool (is_verified a)); simpl;
      repeat (rewrite elem_of_app || rewrite elem_of_cons || rewrite elem_of_nil);
      rewrite ?Hrep; intuition congruence. }
  split_and!.
  - exact Hchar.
  - intros Hs e [_ [_ He]]%Hchar.
    destruct Hs as [Hs|Hs], He as [He|[He|[He _]]]; rewrite Hs in He; discriminate He.
  - intros Hs Hid. apply eq_true_iff_eq.
    rewrite existsb_exists. unfold scan_index_ResultCard. rewrite Hr.
    rewrite ResultCard_offers_report. unfold isVerified, truthy_bool in *.
    split.
    + intros (x & Hx & Hx'). destruct x; try discriminate Hx'.
      apply list_elem_of_In, Hchar in Hx as (_ & _ & [H|[H|[_ H]]]).
      * rewrite Hs in H. discriminate H.
      * rewrite Hs in H. discriminate H.
      * by rewrite H.
    + intros Hv. exists (ModalReportButton (reportIssue (id a))). split; [|done].
      apply list_elem_of_In, Hchar. split_and!; try done. right; right.
      split; [done|]. by destruct (default false (is_verified a)).
Qed.

Lemma modal_report_offered_witness :
  (ModalReportButton (reportIssue 7)
     ∈ ScanScreen_modal (Some (scan_result ai_analysis unknown_canvas))) ∧
  (ModalReportButton (reportIssue 7)
     ∉ ScanScreen_modal (Some (scan_result verified_result unknown_canvas))).
Proof.
  split.
  - apply (proj1 (modal_report_offered (scan_result ai_analysis unknown_canvas)
                    unknown_canvas eq_refl)).
    split_and!; [done|done|]. right. by left.
  - apply (proj1 (proj2 (modal_report_offered
                           (scan_result verified_result unknown_canvas)
                           unknown_canvas eq_refl))).
    by left.
Defined.

End ModalReport.

Section FactText.
Import Frontend Screens.

Lemma string_append_cons (c : Ascii.ascii) (s1 s2 : string) :
  String c s1 +:+ s2 = String c (s1 +:+ s2).
Proof. reflexivity. Qed.

Lemma string_append_empty_l (s : string) : "" +:+ s = s.
Proof. reflexivity. Qed.

Lemma string_length_append (s1 s2 : string) :
  String.length (s1 +:+ s2) = (String.length s1 + String.length s2)%nat.
Proof.
  induction s1 as [|c s1 IH]; [done|].
  rewrite string_append_cons. simpl. by rewrite IH.
Qed.

Lemma substring_0_length (n : nat) (s : string) :
  String.length (String.substring 0 n s) = (n `min` String.length s)%nat.
Proof.
  revert s. induction n as [|n IH]; intros [|c s]; simpl; try done.
  by rewrite IH.
Qed.

Lemma substring_0_all (n : nat) (s : string) :
  (String.length s ≤ n)%nat → String.substring 0 n s = s.
Proof.
  revert s. induction n as [|n IH]; intros [|c s]; simpl; try done; try lia.
  intros Hle. rewrite IH; [done|lia].
Qed.

Lemma substring_0_append (n : nat) (s1 s2 : string) :
  String.length s1 = n → String.substring 0 n (s1 +:+ s2) = s1.
Proof.
  revert n. induction s1 as [|c s1 IH]; intros n <-.
  - rewrite string_append_empty_l. by destruct s2.
  - rewrite string_append_cons. simpl. by rewrite IH.
Qed.

Lemma substring_skip_append (n m : nat) (s1 s2 : string) :
  String.length s1 = n →
  String.substring n m (s1 +:+ s2) = String.substring 0 m s2.
Proof.
  revert n. induction s1 as [|c s1 IH]; intros n <-; [done|].
  rewrite string_append_cons. simpl. by apply IH.
Qed.

Lemma string_append_empty (s : string) : s +:+ "" = s.
Proof.
  induction s as [|c s IH]; [done|]. by rewrite string_append_cons, IH.
Qed.



End FactText.
